(** * android-file-hasher: the scan-and-hash pipeline of [scan_android_device.py]

    A shallow embedding of [calculate_md5], [scan_directory] and [main],
    together with the two library services they rest on: the MD5
    accumulator of [hashlib] (RFC 1321) and the part of the operating
    system the scanner talks to (directory listing, size query, open,
    read).

    A row is written to the report when its text can be encoded as
    UTF-8, the codec the report is opened with; otherwise the writer
    raises [UnicodeEncodeError].  The progress line of [-v], printed
    inside the [try] of the loop, fails when the machine says so.  The
    banner, the summary and the messages of [main] are printed outside
    that [try]; the standard output is taken to accept them, and the
    error stream (opened with [backslashreplace]) to accept every
    line. *)

From Stdlib Require Import ZArith List String Ascii Bool Arith Lia.
From Stdlib Require Import Strings.Byte.
From Stdlib Require Import DecimalString.
Import ListNotations.

Set Warnings "-abstract-large-number".

Local Open Scope string_scope.
Local Open Scope list_scope.

(* ------------------------------------------------------------------ *)
(** ** [hashlib.md5]: the incremental MD5 accumulator *)

Module MD5.

Definition w32 (x : Z) : Z := (x mod 2 ^ 32)%Z.

Definition add32 (a b : Z) : Z := w32 (a + b).

Definition not32 (x : Z) : Z := Z.lxor x 0xffffffff.

Definition rotl32 (x s : Z) : Z :=
  w32 (Z.lor (Z.shiftl x s) (Z.shiftr x (32 - s))).

(** Per-round shift amounts. *)
Definition shifts : list Z :=
  [ 7; 12; 17; 22;  7; 12; 17; 22;  7; 12; 17; 22;  7; 12; 17; 22;
    5;  9; 14; 20;  5;  9; 14; 20;  5;  9; 14; 20;  5;  9; 14; 20;
    4; 11; 16; 23;  4; 11; 16; 23;  4; 11; 16; 23;  4; 11; 16; 23;
    6; 10; 15; 21;  6; 10; 15; 21;  6; 10; 15; 21;  6; 10; 15; 21 ]%Z.

(** [K[i] = floor (2^32 * |sin (i + 1)|)]. *)
Definition sines : list Z :=
  [ 0xd76aa478; 0xe8c7b756; 0x242070db; 0xc1bdceee;
    0xf57c0faf; 0x4787c62a; 0xa8304613; 0xfd469501;
    0x698098d8; 0x8b44f7af; 0xffff5bb1; 0x895cd7be;
    0x6b901122; 0xfd987193; 0xa679438e; 0x49b40821;
    0xf61e2562; 0xc040b340; 0x265e5a51; 0xe9b6c7aa;
    0xd62f105d; 0x02441453; 0xd8a1e681; 0xe7d3fbc8;
    0x21e1cde6; 0xc33707d6; 0xf4d50d87; 0x455a14ed;
    0xa9e3e905; 0xfcefa3f8; 0x676f02d9; 0x8d2a4c8a;
    0xfffa3942; 0x8771f681; 0x6d9d6122; 0xfde5380c;
    0xa4beea44; 0x4bdecfa9; 0xf6bb4b60; 0xbebfbc70;
    0x289b7ec6; 0xeaa127fa; 0xd4ef3085; 0x04881d05;
    0xd9d4d039; 0xe6db99e5; 0x1fa27cf8; 0xc4ac5665;
    0xf4292244; 0x432aff97; 0xab9423a7; 0xfc93a039;
    0x655b59c3; 0x8f0ccc92; 0xffeff47d; 0x85845dd1;
    0x6fa87e4f; 0xfe2ce6e0; 0xa3014314; 0x4e0811a1;
    0xf7537e82; 0xbd3af235; 0x2ad7d2bb; 0xeb86d391 ]%Z.

Definition byte_val (b : byte) : Z := Z.of_N (Byte.to_N b).

Definition byte_of_Z (x : Z) : byte :=
  match Byte.of_N (Z.to_N (x mod 256)) with
  | Some b => b
  | None => x00
  end.

(** Little-endian 32-bit word of four bytes, and back. *)
Definition word_of_bytes (bs : list byte) : Z :=
  fold_right (fun b acc => (byte_val b + 256 * acc)%Z) 0%Z bs.

Definition bytes_of_word (x : Z) : list byte :=
  [ byte_of_Z x; byte_of_Z (Z.shiftr x 8);
    byte_of_Z (Z.shiftr x 16); byte_of_Z (Z.shiftr x 24) ].

Fixpoint words_of_block (n : nat) (bs : list byte) : list Z :=
  match n with
  | O => []
  | S n' => word_of_bytes (firstn 4 bs) :: words_of_block n' (skipn 4 bs)
  end.

Definition regs : Type := Z * Z * Z * Z.

Definition initial_regs : regs :=
  (0x67452301, 0xefcdab89, 0x98badcfe, 0x10325476)%Z.

(** One of the 64 operations of a block. *)
Definition step (m : list Z) (r : regs) (i : nat) : regs :=
  let '(a, b, c, d) := r in
  let '(f, g) :=
    if (i <? 16)%nat then
      (Z.lor (Z.land b c) (Z.land (not32 b) d), i)
    else if (i <? 32)%nat then
      (Z.lor (Z.land d b) (Z.land (not32 d) c), ((5 * i + 1) mod 16)%nat)
    else if (i <? 48)%nat then
      (Z.lxor (Z.lxor b c) d, ((3 * i + 5) mod 16)%nat)
    else
      (Z.lxor c (Z.lor b (not32 d)), ((7 * i) mod 16)%nat) in
  let f' := add32 (add32 (add32 f a) (nth i sines 0%Z)) (nth g m 0%Z) in
  (d, add32 b (rotl32 f' (nth i shifts 0%Z)), b, c).

Definition compress (h : regs) (block : list byte) : regs :=
  let m := words_of_block 16 block in
  let '(a, b, c, d) := fold_left (step m) (seq 0 64) h in
  let '(a0, b0, c0, d0) := h in
  (add32 a0 a, add32 b0 b, add32 c0 c, add32 d0 d).

(** The accumulator: chaining value, bytes of the unfinished block,
    number of bytes fed so far. *)
Record t : Type := mk {
  h : regs;
  pending : list byte;
  fed : Z
}.

Definition new : t := mk initial_regs [] 0.

Definition push (st : t) (b : byte) : t :=
  let buf := pending st ++ [b] in
  if (List.length buf =? 64)%nat
  then mk (compress (h st) buf) [] (fed st + 1)
  else mk (h st) buf (fed st + 1).

Definition update (st : t) (chunk : list byte) : t :=
  fold_left push chunk st.

Definition length_bytes (n : Z) : list byte :=
  let bits := ((8 * n) mod 2 ^ 64)%Z in
  bytes_of_word bits ++ bytes_of_word (Z.shiftr bits 32).

Definition padding (st : t) : list byte :=
  let used := S (List.length (pending st)) in
  let zeros := (if used <=? 56 then 56 - used else 120 - used)%nat in
  x80 :: repeat x00 zeros ++ length_bytes (fed st).

Definition digest (st : t) : list byte :=
  let '(a, b, c, d) := h (update st (padding st)) in
  bytes_of_word a ++ bytes_of_word b ++ bytes_of_word c ++ bytes_of_word d.

Definition hex_digit (n : N) : ascii :=
  nth (N.to_nat n)
      ["0"; "1"; "2"; "3"; "4"; "5"; "6"; "7";
       "8"; "9"; "a"; "b"; "c"; "d"; "e"; "f"]%char "0"%char.

Definition hex_byte (b : byte) : string :=
  let n := Byte.to_N b in
  String (hex_digit (n / 16)%N) (String (hex_digit (n mod 16)%N) "").

Fixpoint hex (bs : list byte) : string :=
  match bs with
  | [] => ""
  | b :: bs' => hex_byte b ++ hex bs'
  end.

Definition hexdigest (st : t) : string := hex (digest st).

(** Whole-content digest: one [update] with everything. *)
Definition md5_hex (data : list byte) : string :=
  hexdigest (update new data).

End MD5.

Definition bytes_of_string (s : string) : list byte :=
  map byte_of_ascii (list_ascii_of_string s).

(* ------------------------------------------------------------------ *)
(** ** Python values: exceptions, text, report rows *)

Definition dec_nat (n : nat) : string := NilZero.string_of_uint (Nat.to_uint n).
Definition dec_Z (z : Z) : string := NilZero.string_of_int (Z.to_int z).

(** Texts are kept as the bytes of their UTF-8 form, the form in which
    the operating system hands out file names.  A name that is not
    valid UTF-8 is a [str] with lone surrogates in Python
    ([surrogateescape]), which the strict UTF-8 codec refuses to
    encode. *)

(** The bytes that may come next inside a UTF-8 sequence, as ranges
    [(lo, hi)]; [[]] between two characters.  Overlong forms, the
    surrogates [U+D800..U+DFFF] and code points above [U+10FFFF] are
    refused, as the codec does. *)
Definition utf8_step (pending : list (nat * nat)) (b : nat)
    : option (list (nat * nat)) :=
  match pending with
  | (lo, hi) :: rest =>
      if ((lo <=? b) && (b <=? hi))%nat then Some rest else None
  | [] =>
      if (b <? 128)%nat then Some []
      else if (b <? 194)%nat then None
      else if (b <? 224)%nat then Some [(128, 191)]%nat
      else if (b =? 224)%nat then Some [(160, 191); (128, 191)]%nat
      else if (b =? 237)%nat then Some [(128, 159); (128, 191)]%nat
      else if (b <? 240)%nat then Some [(128, 191); (128, 191)]%nat
      else if (b =? 240)%nat
           then Some [(144, 191); (128, 191); (128, 191)]%nat
      else if (b <? 244)%nat
           then Some [(128, 191); (128, 191); (128, 191)]%nat
      else if (b =? 244)%nat
           then Some [(128, 143); (128, 191); (128, 191)]%nat
      else None
  end.

Fixpoint utf8_from (pending : list (nat * nat)) (s : string) : bool :=
  match s with
  | EmptyString => match pending with [] => true | _ :: _ => false end
  | String c s' =>
      match utf8_step pending (nat_of_ascii c) with
      | Some pending' => utf8_from pending' s'
      | None => false
      end
  end.

(** The text can be encoded as UTF-8: [text.encode('utf-8')] does not
    raise. *)
Definition valid_utf8 (s : string) : bool := utf8_from [] s.

Definition squote : ascii := "'"%char.
Definition dquote : ascii := ascii_of_nat 34.
Definition backslash : ascii := ascii_of_nat 92.

Fixpoint has_char (c : ascii) (s : string) : bool :=
  match s with
  | EmptyString => false
  | String d s' => Ascii.eqb c d || has_char c s'
  end.

Definition hex2 (n : nat) : string :=
  String (MD5.hex_digit (N.of_nat n / 16)%N)
         (String (MD5.hex_digit (N.of_nat n mod 16)%N) "").

(** [repr] of a [str]: apostrophes around the text, or double quotes
    when the text holds an apostrophe and no double quote; the quote in
    use and the backslash are escaped, and so are the control
    characters of ASCII.  The bytes of a character outside ASCII are
    kept, as Python keeps every printable character; the characters
    outside ASCII that Python escapes (those that are not printable,
    and the lone surrogates of a name that is not UTF-8 text) are not
    told apart here. *)
Definition repr_quote (s : string) : ascii :=
  if has_char squote s && negb (has_char dquote s) then dquote else squote.

Definition repr_char (quote c : ascii) : string :=
  let n := nat_of_ascii c in
  if Ascii.eqb c quote || Ascii.eqb c backslash
  then String backslash (String c "")
  else if (n =? 9)%nat then String backslash "t"
  else if (n =? 10)%nat then String backslash "n"
  else if (n =? 13)%nat then String backslash "r"
  else if ((n <? 32) || (n =? 127))%nat
       then String backslash (String "x" (hex2 n))
  else String c "".

Fixpoint repr_body (quote : ascii) (s : string) : string :=
  match s with
  | EmptyString => EmptyString
  | String c s' => repr_char quote c ++ repr_body quote s'
  end.

Definition repr (s : string) : string :=
  let quote := repr_quote s in
  String quote (repr_body quote s ++ String quote "").

Inductive exn : Type :=
| OSError (errno : nat) (strerror : string) (filename : option string)
| UnicodeEncodeError (message : string)
| ValueError (message : string)
| KeyboardInterrupt
| SystemExit (code : Z)
| Diverges.
(** [OSError] stands for the class and its subclasses ([PermissionError],
    [FileNotFoundError], [NotADirectoryError], [BrokenPipeError]), which
    Python picks from [errno].  [ValueError] stands for the other
    classes below [Exception] that a write to a stream raises.
    [Diverges] is no Python exception: it marks a read loop of the model
    that used up its fuel, and nothing catches it. *)

Definition is_OSError (e : exn) : bool :=
  match e with OSError _ _ _ => true | _ => false end.

(** [except Exception]: everything but [KeyboardInterrupt] and
    [SystemExit], which derive from [BaseException] only. *)
Definition is_Exception (e : exn) : bool :=
  match e with
  | OSError _ _ _ | UnicodeEncodeError _ | ValueError _ => true
  | KeyboardInterrupt | SystemExit _ | Diverges => false
  end.

Definition is_KeyboardInterrupt (e : exn) : bool :=
  match e with KeyboardInterrupt => true | _ => false end.

(** [str(e)]. *)
Definition str_exn (e : exn) : string :=
  match e with
  | OSError n msg None => "[Errno " ++ dec_nat n ++ "] " ++ msg
  | OSError n msg (Some p) =>
      "[Errno " ++ dec_nat n ++ "] " ++ msg ++ ": " ++ repr p
  | UnicodeEncodeError msg => msg
  | ValueError msg => msg
  | KeyboardInterrupt => ""
  | SystemExit c => dec_Z c
  | Diverges => ""
  end.

(** A cell handed to [csv_writer.writerow]: a [str] or an [int]. *)
Inductive cell : Type :=
| Str (s : string)
| Int (n : Z).

Definition row : Type := list cell.

(** The text the writer puts in the report for a cell ([str(value)]). *)
Definition cell_text (c : cell) : string :=
  match c with
  | Str s => s
  | Int n => dec_Z n
  end.

Definition field (i : nat) (r : row) : string := cell_text (nth i r (Str "")).
Definition field_path : row -> string := field 0.
Definition field_md5 : row -> string := field 1.
Definition field_size : row -> string := field 2.
Definition field_status : row -> string := field 3.

Definition header : row :=
  [Str "File Path"; Str "MD5 Hash"; Str "File Size (bytes)"; Str "Status"].

(** Every cell of the row can be encoded for the report, which is
    opened with [encoding='utf-8']. *)
Definition row_encodable (r : row) : bool :=
  forallb (fun c => valid_utf8 (cell_text c)) r.

(** Truth value of an [Optional[str]]: [None] and [""] are false. *)
Definition truthy (v : option string) : bool :=
  match v with
  | Some s => negb (s =? "")
  | None => false
  end.

(** [posixpath.join] of two components. *)
Definition ends_with_sep (s : string) : bool :=
  match rev (list_ascii_of_string s) with
  | c :: _ => Ascii.eqb c "/"
  | [] => false
  end.

Definition os_path_join (a b : string) : string :=
  if prefix "/" b then b
  else if (a =? "") || ends_with_sep a then a ++ b
  else a ++ "/" ++ b.

(* ------------------------------------------------------------------ *)
(** ** The file system the scanner sees *)

(** An error of the operating system: [errno] and its message. *)
Record oserr : Type := mk_oserr { errno : nat; strerror : string }.

Definition ENOENT : oserr := mk_oserr 2 "No such file or directory".
Definition EIO : oserr := mk_oserr 5 "Input/output error".
Definition EACCES : oserr := mk_oserr 13 "Permission denied".
Definition ENOTDIR : oserr := mk_oserr 20 "Not a directory".

Definition raise_os (e : oserr) (filename : option string) : exn :=
  OSError (errno e) (strerror e) filename.

(** When another process removed a file that the walker has listed:
    before the scanner asks for its size, or after that and before the
    scanner opens it. *)
Inductive removal : Type :=
| BeforeSize
| BeforeOpen.

(** A regular file as the scanner meets it: its bytes, and what goes
    wrong with the calls the scanner makes on it.
    [f_read_fault = Some (k, e)]: the read call number [k] (from 0) on
    the opened file fails with [e]. *)
Record file : Type := mk_file {
  f_data : list byte;
  f_stat_error : option oserr;
  f_open_error : option oserr;
  f_read_fault : option (nat * oserr);
  f_removed : option removal
}.

(** A directory tree.  [Dir false _] cannot be listed. *)
#[warnings="-register-all"]
Inductive node : Type :=
| File (f : file)
| Dir (listable : bool) (entries : list (string * node)).

Fixpoint files (entries : list (string * node)) : list (string * file) :=
  match entries with
  | [] => []
  | (name, File f) :: es => (name, f) :: files es
  | (_, Dir _ _) :: es => files es
  end.

Fixpoint dirnames (entries : list (string * node)) : list string :=
  match entries with
  | [] => []
  | (_, File _) :: es => dirnames es
  | (name, Dir _ _) :: es => name :: dirnames es
  end.

(** What happens around one run of the program. *)
Record env : Type := mk_env {
  e_fs : string -> option node;          (* what a root path names, if anything *)
  e_sigint : option nat;                 (* Ctrl-C arrives at this step *)
  e_create_error : string -> option oserr;  (* opening the report for writing *)
  e_mount_point : option string;         (* result of [find_android_mount_point] *)
  e_timestamp : string;                  (* [datetime.now().strftime(...)] *)
  e_abspath : string -> string;
  e_uid : nat;
  e_expanduser : string -> string;
  e_stdout_error : string -> option exn;  (* what printing this progress line raises *)
  e_codec_message : row -> string        (* [str] of the codec's error for this row *)
}.

(** Steps of a run at which the program calls out: the calls to the
    operating system, and the entries into [calculate_md5]. *)
Inductive event : Type :=
| Exists (path : string)
| Create (path : string)
| Scandir (path : string)
| Getsize (path : string)
| Hash (path : string)
| Open (path : string)
| Read (path : string).

Record state : Type := mk_state {
  calls : list event;        (* most recent first *)
  report : list row;         (* rows written, in order *)
  stdout : list string;      (* lines printed, in order *)
  stderr : list string;
  file_count : nat;          (* the two counters of [scan_directory] *)
  error_count : nat
}.

Definition initial_state : state := mk_state [] [] [] [] 0 0.

(** An open binary file: what is left to read and how many read calls
    it has served. *)
Record handle : Type := mk_handle {
  h_path : string;
  h_rest : list byte;
  h_reads : nat;
  h_fault : option (nat * oserr)
}.

Inductive result (A : Type) : Type :=
| Ok (a : A)
| Raise (e : exn).
Arguments Ok {A} a.
Arguments Raise {A} e.

Definition M (A : Type) : Type := state -> result A * state.

Definition ret {A} (a : A) : M A := fun s => (Ok a, s).

Definition bind {A B} (m : M A) (k : A -> M B) : M B :=
  fun s =>
    match m s with
    | (Ok a, s') => k a s'
    | (Raise e, s') => (Raise e, s')
    end.

Definition raise {A} (e : exn) : M A := fun s => (Raise e, s).

Notation "x <- m ;; k" := (bind m (fun x => k))
  (at level 61, m at next level, right associativity).
Notation "m ;; k" := (bind m (fun _ => k))
  (at level 61, right associativity).

(** [try: body except <classes> as e: handler e]. *)
Definition try_except {A} (body : M A) (classes : exn -> bool)
    (handler : exn -> M A) : M A :=
  fun s =>
    match body s with
    | (Raise e, s') => if classes e then handler e s' else (Raise e, s')
    | r => r
    end.

Fixpoint for_each {A} (xs : list A) (body : A -> M unit) : M unit :=
  match xs with
  | [] => ret tt
  | x :: xs' => body x ;; for_each xs' body
  end.

Definition print (line : string) : M unit := fun s =>
  (Ok tt, mk_state (calls s) (report s) (stdout s ++ [line]) (stderr s)
                   (file_count s) (error_count s)).

Definition print_err (line : string) : M unit := fun s =>
  (Ok tt, mk_state (calls s) (report s) (stdout s) (stderr s ++ [line])
                   (file_count s) (error_count s)).

Definition truncate_report : M unit := fun s =>
  (Ok tt, mk_state (calls s) [] (stdout s) (stderr s)
                   (file_count s) (error_count s)).

Definition set_counts (fc ec : nat) : M unit := fun s =>
  (Ok tt, mk_state (calls s) (report s) (stdout s) (stderr s) fc ec).

Definition incr_file_count : M unit := fun s =>
  (Ok tt, mk_state (calls s) (report s) (stdout s) (stderr s)
                   (S (file_count s)) (error_count s)).

Definition incr_error_count : M unit := fun s =>
  (Ok tt, mk_state (calls s) (report s) (stdout s) (stderr s)
                   (file_count s) (S (error_count s))).

Definition get_file_count : M nat := fun s => (Ok (file_count s), s).
Definition get_error_count : M nat := fun s => (Ok (error_count s), s).

Definition log (ev : event) (s : state) : state :=
  mk_state (ev :: calls s) (report s) (stdout s) (stderr s)
           (file_count s) (error_count s).

(* ------------------------------------------------------------------ *)
(** ** The program *)

Section Program.

Variable E : env.

(** One step that calls out.  Ctrl-C pressed at this step raises
    [KeyboardInterrupt] in place of the step's own outcome. *)
Definition step {A} (ev : event) (outcome : result A) : M A := fun s =>
  let s' := log ev s in
  match e_sigint E with
  | Some k =>
      if (k =? List.length (calls s))%nat
      then (Raise KeyboardInterrupt, s')
      else (outcome, s')
  | None => (outcome, s')
  end.

(** [csv_writer.writerow(r)]: the line is encoded as it is written. *)
Definition writerow (r : row) : M unit := fun s =>
  if row_encodable r then
    (Ok tt, mk_state (calls s) (report s ++ [r]) (stdout s) (stderr s)
                     (file_count s) (error_count s))
  else (Raise (UnicodeEncodeError (e_codec_message E r)), s).

(** The [print] of the progress line, inside the [try] of the loop. *)
Definition print_progress (line : string) : M unit := fun s =>
  match e_stdout_error E line with
  | Some e => (Raise e, s)
  | None => print line s
  end.

(** [os.path.getsize(file_path)]. *)
Definition getsize (file_path : string) (f : file) : M Z :=
  step (Getsize file_path)
    match f_removed f, f_stat_error f with
    | Some BeforeSize, _ => Raise (raise_os ENOENT (Some file_path))
    | _, Some e => Raise (raise_os e (Some file_path))
    | _, None => Ok (Z.of_nat (List.length (f_data f)))
    end.

(** [open(file_path, 'rb')]. *)
Definition open_rb (file_path : string) (f : file) : M handle :=
  step (Open file_path)
    match f_removed f, f_open_error f with
    | Some _, _ => Raise (raise_os ENOENT (Some file_path))
    | None, Some e => Raise (raise_os e (Some file_path))
    | None, None =>
        Ok (mk_handle file_path (f_data f) 0 (f_read_fault f))
    end.

(** [f.read(n)] on a buffered binary file: the next [n] bytes, fewer
    only at the end of the file. *)
Definition read (hd : handle) (n : nat) : M (list byte * handle) :=
  step (Read (h_path hd))
    match h_fault hd with
    | Some (k, e) =>
        if (k =? h_reads hd)%nat then Raise (raise_os e None)
        else Ok (firstn n (h_rest hd),
                 mk_handle (h_path hd) (skipn n (h_rest hd))
                           (S (h_reads hd)) (h_fault hd))
    | None =>
        Ok (firstn n (h_rest hd),
            mk_handle (h_path hd) (skipn n (h_rest hd))
                      (S (h_reads hd)) (h_fault hd))
    end.

(** [for chunk in iter(lambda: f.read(n), b''): md5_hash.update(chunk)].
    The loop has no bound of its own; the model gives it [fuel] turns
    and raises [Diverges] when they are used up. *)
Fixpoint read_chunks (fuel : nat) (n : nat) (hd : handle) (md5_hash : MD5.t)
    : M MD5.t :=
  match fuel with
  | O => raise Diverges
  | S fuel' =>
      r <- read hd n ;;
      match fst r with
      | [] => ret md5_hash
      | _ :: _ => read_chunks fuel' n (snd r) (MD5.update md5_hash (fst r))
      end
  end.

(** [calculate_md5] with the chunk size as a parameter. *)
Definition calculate_md5_with (chunk_size : nat) (file_path : string)
    (f : file) : M (option string) :=
  step (Hash file_path) (Ok tt) ;;
  let md5_hash := MD5.new in
  try_except
    (hd <- open_rb file_path f ;;
     md5_hash' <- read_chunks (S (List.length (h_rest hd))) chunk_size hd
                              md5_hash ;;
     ret (Some (MD5.hexdigest md5_hash')))
    is_OSError
    (fun e =>
       print_err ("Error reading " ++ file_path ++ ": " ++ str_exn e) ;;
       ret None).

#[warnings="-abstract-large-number"]
Definition calculate_md5 : string -> file -> M (option string) :=
  calculate_md5_with 8192.

(** The body of the inner loop of [scan_directory], for one entry of
    [files]. *)
Definition process_file (verbose : bool) (root : string)
    (entry : string * file) : M unit :=
  let filename := fst entry in
  let file_path := os_path_join root filename in
  try_except
    (file_size <- getsize file_path (snd entry) ;;
     md5_hash <- calculate_md5 file_path (snd entry) ;;
     if truthy md5_hash then
       incr_file_count ;;
       (if verbose then
          fc <- get_file_count ;;
          print_progress ("[" ++ dec_nat fc ++ "] " ++ file_path)
        else ret tt) ;;
       writerow [Str file_path;
                 Str (match md5_hash with Some d => d | None => "" end);
                 Int file_size; Str "Success"]
     else
       incr_error_count ;;
       writerow [Str file_path; Str "N/A"; Int file_size;
                 Str "Error - Could not read file"])
    is_Exception
    (fun e =>
       incr_error_count ;;
       print_err ("Error processing " ++ file_path ++ ": " ++ str_exn e) ;;
       writerow [Str file_path; Str "N/A"; Str "N/A";
                 Str ("Error - " ++ str_exn e)]).

(** [for root, dirs, files in os.walk(top): body root dirs files], top
    down, errors of [scandir] swallowed ([onerror=None]), the
    directories visited in listing order.  Each file name comes with
    the file it names. *)
Fixpoint os_walk (body : string -> list string -> list (string * file) -> M unit)
    (top : string) (n : node) {struct n} : M unit :=
  match n with
  | File _ => step (Scandir top) (Ok tt)
  | Dir false _ => step (Scandir top) (Ok tt)
  | Dir true entries =>
      step (Scandir top) (Ok tt) ;;
      body top (dirnames entries) (files entries) ;;
      (fix subdirs (es : list (string * node)) : M unit :=
         match es with
         | [] => ret tt
         | (name, d) :: es' =>
             match d with
             | File _ => subdirs es'
             | Dir _ _ =>
                 os_walk body (os_path_join top name) d ;; subdirs es'
             end
         end) entries
  end.

Definition dashes : string := string_of_list_ascii (repeat "-"%char 80).

(** The loop over the subdirectories inside [os_walk]. *)
Definition walk_subdirs
    (body : string -> list string -> list (string * file) -> M unit)
    (top : string) : list (string * node) -> M unit :=
  fix subdirs (es : list (string * node)) : M unit :=
    match es with
    | [] => ret tt
    | (name, d) :: es' =>
        match d with
        | File _ => subdirs es'
        | Dir _ _ => os_walk body (os_path_join top name) d ;; subdirs es'
        end
    end.

(** The two nested loops of [scan_directory].  A root path that names
    nothing makes [scandir] fail at once, which [os.walk] swallows. *)
Definition scan_loop (root_path : string) (verbose : bool) : M unit :=
  match e_fs E root_path with
  | Some n =>
      os_walk (fun root _ fs => for_each fs (process_file verbose root))
              root_path n
  | None => step (Scandir root_path) (Ok tt)
  end.

(** [open(output_csv, 'w', ...)]: the report starts empty. *)
Definition create_output (output_csv : string) : M unit :=
  step (Create output_csv)
    match e_create_error E output_csv with
    | Some e => Raise (raise_os e (Some output_csv))
    | None => Ok tt
    end ;;
  truncate_report.

Definition scan_directory (root_path output_csv : string) (verbose : bool)
    : M unit :=
  set_counts 0 0 ;;
  create_output output_csv ;;
  writerow header ;;
  print ("Scanning: " ++ root_path) ;;
  print ("Output will be written to: " ++ output_csv) ;;
  print dashes ;;
  scan_loop root_path verbose ;;
  print dashes ;;
  print "Scan complete!" ;;
  fc <- get_file_count ;;
  print ("Total files processed: " ++ dec_nat fc) ;;
  ec <- get_error_count ;;
  print ("Errors encountered: " ++ dec_nat ec) ;;
  print ("Results saved to: " ++ output_csv).

(** Parsed command line. *)
Record args : Type := mk_args {
  arg_path : option string;
  arg_output : option string;
  arg_verbose : bool
}.

Definition newline : string := String (ascii_of_nat 10) "".

(** The first part of [main]: the device path, checked to exist, and
    the absolute path of the report. *)
Definition resolve (a : args) : M (string * string) :=
  device_path <-
    (if truthy (arg_path a) then
       ret (match arg_path a with Some p => p | None => "" end)
     else
       print "Attempting to auto-detect Android device..." ;;
       if truthy (e_mount_point E) then
         let device_path :=
           match e_mount_point E with Some p => p | None => "" end in
         print ("Found Android device at: " ++ device_path) ;;
         ret device_path
       else
         print (newline ++ "Error: Could not auto-detect Android device.") ;;
         print (newline ++ "Please ensure:") ;;
         print "1. Your Android phone is connected via USB" ;;
         print "2. You have selected 'File Transfer' (MTP) mode on your phone" ;;
         print "3. You have opened the device in your file manager (Nautilus/Files)" ;;
         print (newline ++ "Or specify the device path manually using -p option.") ;;
         print (newline ++ "To find the path manually, check:") ;;
         print ("  - /run/user/" ++ dec_nat (e_uid E) ++ "/gvfs/") ;;
         print ("  - " ++ e_expanduser E "~/.gvfs/") ;;
         raise (SystemExit 1)) ;;
  path_exists <-
    step (Exists device_path)
         (Ok (match e_fs E device_path with Some _ => true | None => false end)) ;;
  if negb path_exists then
    print ("Error: Path does not exist: " ++ device_path) ;;
    raise (SystemExit 1)
  else
    let output_file :=
      if truthy (arg_output a)
      then match arg_output a with Some o => o | None => "" end
      else ("android_scan_" ++ e_timestamp E ++ ".csv")%string in
    ret (device_path, e_abspath E output_file).

Definition main (a : args) : M unit :=
  paths <- resolve a ;;
  try_except
    (scan_directory (fst paths) (snd paths) (arg_verbose a))
    (fun e => is_KeyboardInterrupt e || is_Exception e)
    (fun e =>
       if is_KeyboardInterrupt e then
         print (newline ++ newline ++ "Scan interrupted by user.") ;;
         raise (SystemExit 1)
       else
         print (newline ++ "Fatal error: " ++ str_exn e) ;;
         raise (SystemExit 1)).

(** The exit status of the process for an outcome of [main]: [0] when
    [main] returns, the code of a [SystemExit], [130] when
    [KeyboardInterrupt] reaches the top (the interpreter dies of
    SIGINT), [1] for any other uncaught exception. *)
Definition exit_status (r : result unit) : Z :=
  match r with
  | Ok _ => 0
  | Raise (SystemExit c) => c
  | Raise KeyboardInterrupt => 130
  | Raise _ => 1
  end.

Definition run (a : args) : Z * state :=
  let '(r, s) := main a initial_state in (exit_status r, s).

End Program.

(* ------------------------------------------------------------------ *)
(** ** Facts about the accumulator and the digest text *)

Definition is_lower_hex (c : ascii) : bool :=
  let n := nat_of_ascii c in
  ((48 <=? n) && (n <=? 57))%nat || ((97 <=? n) && (n <=? 102))%nat.

(** A 32-character lowercase hexadecimal string. *)
Definition is_md5_hex (s : string) : bool :=
  (String.length s =? 32)%nat && forallb is_lower_hex (list_ascii_of_string s).

Lemma string_length_app (a b : string) :
  String.length (a ++ b) = (String.length a + String.length b)%nat.
Proof. induction a as [|c a IH]; simpl; [reflexivity | now rewrite IH]. Qed.

Lemma list_ascii_app (a b : string) :
  list_ascii_of_string (a ++ b) =
  (list_ascii_of_string a ++ list_ascii_of_string b)%list.
Proof. induction a as [|c a IH]; simpl; [reflexivity | now rewrite IH]. Qed.

Module MD5Facts.

Lemma update_app (st : MD5.t) (a b : list byte) :
  MD5.update (MD5.update st a) b = MD5.update st (a ++ b).
Proof. unfold MD5.update. now rewrite fold_left_app. Qed.

Lemma update_chunked (st : MD5.t) (n : nat) (data : list byte) :
  MD5.update (MD5.update st (firstn n data)) (skipn n data) =
  MD5.update st data.
Proof. now rewrite update_app, firstn_skipn. Qed.

Lemma hex_byte_ok (b : byte) :
  String.length (MD5.hex_byte b) = 2 /\
  forallb is_lower_hex (list_ascii_of_string (MD5.hex_byte b)) = true.
Proof. destruct b; split; reflexivity. Qed.

Lemma hex_length (bs : list byte) :
  String.length (MD5.hex bs) = (2 * List.length bs)%nat.
Proof.
  induction bs as [|b bs IH]; [reflexivity|].
  cbn [MD5.hex List.length]. rewrite string_length_app, IH.
  destruct (hex_byte_ok b) as [-> _]. lia.
Qed.

Lemma hex_lower (bs : list byte) :
  forallb is_lower_hex (list_ascii_of_string (MD5.hex bs)) = true.
Proof.
  induction bs as [|b bs IH]; [reflexivity|].
  cbn [MD5.hex]. rewrite list_ascii_app, forallb_app, IH.
  now destruct (hex_byte_ok b) as [_ ->].
Qed.

Lemma digest_length (st : MD5.t) : List.length (MD5.digest st) = 16.
Proof.
  unfold MD5.digest.
  destruct (MD5.h (MD5.update st (MD5.padding st))) as [[[a b] c] d].
  reflexivity.
Qed.

Lemma hexdigest_ok (st : MD5.t) : is_md5_hex (MD5.hexdigest st) = true.
Proof.
  unfold is_md5_hex, MD5.hexdigest.
  now rewrite hex_length, digest_length, hex_lower.
Qed.

Lemma hexdigest_truthy (st : MD5.t) : truthy (Some (MD5.hexdigest st)) = true.
Proof.
  pose proof (hexdigest_ok st) as H. unfold is_md5_hex in H.
  apply andb_true_iff in H as [H _]. apply Nat.eqb_eq in H.
  unfold truthy. destruct (MD5.hexdigest st); [discriminate | reflexivity].
Qed.


Example md5_abc :
  MD5.md5_hex (bytes_of_string "abc") = "900150983cd24fb0d6963f7d28e17f72".
Proof. vm_compute. reflexivity. Qed.

Example md5_message_digest :
  MD5.md5_hex (bytes_of_string "message digest") =
  "f96b697d7cb7938d525a2f31aaf161d0".
Proof. vm_compute. reflexivity. Qed.

Example md5_100 :
  MD5.md5_hex (repeat "a"%byte 100) = "36a92cc94a9e0fa21f625f8bfb007adf".
Proof. vm_compute. reflexivity. Qed.

End MD5Facts.

(* ------------------------------------------------------------------ *)
(** ** Runs that the user does not interrupt *)

(** The read call number [k] is made when the [k - 1] calls before it
    did not reach the end of the data. *)
Definition fault_hits (chunk : nat) (f : file) : bool :=
  match f_read_fault f with
  | Some (k, _) => (k * chunk <? List.length (f_data f) + chunk)%nat
  | None => false
  end.

(** A file that opens and whose content can be read to the end in
    chunks of [chunk] bytes. *)
Definition hashable (chunk : nat) (f : file) : bool :=
  match f_open_error f, f_removed f with
  | None, None => negb (fault_hits chunk f)
  | _, _ => false
  end.

(** A file on which no call of the scanner fails. *)
#[warnings="-abstract-large-number"]
Definition readable (f : file) : bool :=
  match f_stat_error f with
  | None => hashable 8192 f
  | Some _ => false
  end.

(** A file that cannot be opened. *)
Definition open_fails (f : file) : bool :=
  match f_open_error f, f_removed f with
  | None, None => false
  | _, _ => true
  end.

(** A file that opens and on which a read call of the loop fails. *)
Definition read_fails (chunk : nat) (f : file) : bool :=
  match f_open_error f, f_removed f with
  | None, None => fault_hits chunk f
  | _, _ => false
  end.

Definition with_calls (c : list event) (s : state) : state :=
  mk_state c (report s) (stdout s) (stderr s) (file_count s) (error_count s).

Definition never_hits (n : nat) (hd : handle) : Prop :=
  match h_fault hd with
  | None => True
  | Some (j, _) =>
      (h_reads hd <= j)%nat /\
      (List.length (h_rest hd) + n <= (j - h_reads hd) * n)%nat
  end.

Section Quiet.

Variable E : env.
Hypothesis quiet : e_sigint E = None.

Lemma step_quiet {A} (ev : event) (o : result A) (s : state) :
  step E ev o s = (o, log ev s).
Proof. unfold step. now rewrite quiet. Qed.

Lemma read_quiet (hd : handle) (n : nat) (s : state) :
  never_hits n hd -> (0 < n)%nat ->
  read E hd n s =
  (Ok (firstn n (h_rest hd),
       mk_handle (h_path hd) (skipn n (h_rest hd)) (S (h_reads hd))
                 (h_fault hd)),
   log (Read (h_path hd)) s).
Proof.
  intros Hnh Hn. unfold read. rewrite step_quiet.
  unfold never_hits in Hnh.
  destruct (h_fault hd) as [[j e]|]; [|reflexivity].
  destruct Hnh as [Hle Hfar].
  destruct (Nat.eqb_spec j (h_reads hd)) as [->|_]; [|reflexivity].
  rewrite Nat.sub_diag in Hfar. simpl in Hfar. lia.
Qed.

(** The loop feeds the whole content, whatever the chunk size, and
    ends within [S (length content)] turns. *)
Lemma read_chunks_whole (fuel n : nat) :
  (0 < n)%nat ->
  forall (hd : handle) (acc : MD5.t) (s : state),
    (List.length (h_rest hd) < fuel)%nat ->
    never_hits n hd ->
    exists c,
      read_chunks E fuel n hd acc s =
      (Ok (MD5.update acc (h_rest hd)), with_calls c s).
Proof.
  intros Hn. induction fuel as [|fuel IH]; intros hd acc s Hlen Hnh; [lia|].
  cbn [read_chunks]. unfold bind at 1. rewrite read_quiet by assumption.
  cbn [fst snd].
  destruct (h_rest hd) as [|b rest] eqn:Hrest.
  - rewrite firstn_nil. exists (Read (h_path hd) :: calls s). reflexivity.
  - destruct n as [|n']; [lia|].
    cbn [firstn].
    set (hd' := mk_handle _ _ _ _).
    destruct (IH hd' (MD5.update acc (b :: firstn n' rest))
                (log (Read (h_path hd)) s)) as [c Hc].
    + subst hd'. cbn [h_rest skipn]. rewrite length_skipn.
      cbn [List.length] in Hlen. lia.
    + subst hd'. unfold never_hits in *. cbn [h_fault h_rest h_reads skipn].
      destruct (h_fault hd) as [[j e]|]; [|exact I].
      destruct Hnh as [Hle Hfar]. rewrite Hrest in Hfar.
      cbn [List.length] in Hfar. rewrite length_skipn.
      assert (S (h_reads hd) <= j)%nat by nia.
      split; [assumption|].
      replace (j - h_reads hd)%nat with (S (j - S (h_reads hd))) in Hfar by lia.
      nia.
    + rewrite Hc. exists c.
      f_equal. f_equal.
      change (b :: firstn n' rest) with (firstn (S n') (b :: rest)).
      subst hd'. cbn [h_rest].
      change (skipn n' rest) with (skipn (S n') (b :: rest)).
      apply MD5Facts.update_chunked.
Qed.

End Quiet.

(* ------------------------------------------------------------------ *)
(** ** What a computation leaves alone, returns and maintains *)

(** The part of the state the claims are about: the rows of the report
    and the two counters. *)
Definition ledger (s : state) : list row * nat * nat :=
  (report s, file_count s, error_count s).

(** [m] writes no row and touches no counter. *)
Definition silent {A} (m : M A) : Prop :=
  forall s, ledger (snd (m s)) = ledger s.

(** Every value [m] returns satisfies [Q]. *)
Definition returns {A} (m : M A) (Q : A -> Prop) : Prop :=
  forall s a, fst (m s) = Ok a -> Q a.

(** [m] maintains [R] on the ledger, however it ends, and returns only
    values that satisfy [Q]. *)
Definition sound {A} (R : list row * nat * nat -> Prop) (m : M A)
    (Q : A -> Prop) : Prop :=
  forall s, R (ledger s) ->
    R (ledger (snd (m s))) /\ (forall a, fst (m s) = Ok a -> Q a).

Section Logic.

Context {A B : Type}.

Lemma silent_ret (a : A) : silent (ret a).
Proof. intros s. reflexivity. Qed.

Lemma silent_raise (e : exn) : silent (@raise A e).
Proof. intros s. reflexivity. Qed.

Lemma silent_bind (m : M A) (k : A -> M B) :
  silent m -> (forall a, silent (k a)) -> silent (bind m k).
Proof.
  intros Hm Hk s. unfold bind. specialize (Hm s).
  destruct (m s) as [[a|e] s']; cbn [snd] in *.
  - now rewrite Hk.
  - assumption.
Qed.

Lemma silent_try (body : M A) (classes : exn -> bool) (handler : exn -> M A) :
  silent body -> (forall e, silent (handler e)) ->
  silent (try_except body classes handler).
Proof.
  intros Hb Hh s. unfold try_except. specialize (Hb s).
  destruct (body s) as [[a|e] s']; cbn [snd] in *; [assumption|].
  destruct (classes e); cbn [snd]; [now rewrite Hh | assumption].
Qed.

Lemma returns_ret (a : A) (Q : A -> Prop) : Q a -> returns (ret a) Q.
Proof. intros HQ s a' H. injection H as <-. exact HQ. Qed.

Lemma returns_raise (e : exn) (Q : A -> Prop) : returns (raise e) Q.
Proof. intros s a H. discriminate H. Qed.

Lemma returns_bind (m : M A) (k : A -> M B) (Q : B -> Prop) :
  (forall a, returns (k a) Q) -> returns (bind m k) Q.
Proof.
  intros Hk s b. unfold bind.
  destruct (m s) as [[a|e] s']; [apply Hk | discriminate].
Qed.

Lemma returns_try (body : M A) (classes : exn -> bool)
    (handler : exn -> M A) (Q : A -> Prop) :
  returns body Q -> (forall e, returns (handler e) Q) ->
  returns (try_except body classes handler) Q.
Proof.
  intros Hb Hh s a. unfold try_except. specialize (Hb s).
  destruct (body s) as [[a'|e] s']; cbn [fst] in *; [apply Hb|].
  destruct (classes e); [apply Hh | discriminate].
Qed.

Lemma sound_silent (R : list row * nat * nat -> Prop) (m : M A)
    (Q : A -> Prop) :
  silent m -> returns m Q -> sound R m Q.
Proof.
  intros Hs Hr s HR. split; [now rewrite Hs | apply Hr].
Qed.

Lemma sound_weaken (R : list row * nat * nat -> Prop) (m : M A)
    (Q Q' : A -> Prop) :
  sound R m Q -> (forall a, Q a -> Q' a) -> sound R m Q'.
Proof.
  intros Hm HQ s HR. destruct (Hm s HR) as [H1 H2]. split; [assumption|].
  intros a Ha. auto.
Qed.

Lemma sound_bind (R : list row * nat * nat -> Prop) (m : M A)
    (k : A -> M B) (P : A -> Prop) (Q : B -> Prop) :
  sound R m P -> (forall a, P a -> sound R (k a) Q) -> sound R (bind m k) Q.
Proof.
  intros Hm Hk s HR. unfold bind. destruct (Hm s HR) as [H1 H2].
  destruct (m s) as [[a|e] s']; cbn [fst snd] in *.
  - apply Hk; auto.
  - split; [assumption | discriminate].
Qed.

Lemma sound_try (R : list row * nat * nat -> Prop) (body : M A)
    (classes : exn -> bool) (handler : exn -> M A) (Q : A -> Prop) :
  sound R body Q -> (forall e, sound R (handler e) Q) ->
  sound R (try_except body classes handler) Q.
Proof.
  intros Hb Hh s HR. unfold try_except. destruct (Hb s HR) as [H1 H2].
  destruct (body s) as [[a|e] s']; cbn [fst snd] in *.
  - split; assumption.
  - destruct (classes e); [apply Hh; assumption|].
    split; [assumption | discriminate].
Qed.

End Logic.

Lemma sound_for_each {A} (R : list row * nat * nat -> Prop) (xs : list A)
    (body : A -> M unit) :
  (forall x, sound R (body x) (fun _ => True)) ->
  sound R (for_each xs body) (fun _ => True).
Proof.
  intros Hb. induction xs as [|x xs IH]; cbn [for_each].
  - intros s HR. split; [assumption | trivial].
  - eapply sound_bind; [apply Hb | intros _ _; exact IH].
Qed.

Lemma silent_print (line : string) : silent (print line).
Proof. intros s. reflexivity. Qed.

Lemma silent_print_err (line : string) : silent (print_err line).
Proof. intros s. reflexivity. Qed.

Lemma silent_get_file_count : silent get_file_count.
Proof. intros s. reflexivity. Qed.

Lemma silent_get_error_count : silent get_error_count.
Proof. intros s. reflexivity. Qed.

Lemma silent_print_progress (E : env) (line : string) :
  silent (print_progress E line).
Proof.
  intros s. unfold print_progress. now destruct (e_stdout_error E line).
Qed.

Lemma silent_step (E : env) {A} (ev : event) (o : result A) :
  silent (step E ev o).
Proof.
  intros s. unfold step.
  destruct (e_sigint E) as [k|]; [|reflexivity].
  destruct (k =? List.length (calls s))%nat; reflexivity.
Qed.

Create HintDb silent.

#[local] Hint Resolve silent_ret silent_raise silent_print silent_print_err
  silent_print_progress silent_get_file_count silent_get_error_count
  silent_step : silent.

(** ** Texts the report can hold *)

Lemma utf8_from_app (a b : string) :
  forall pending,
    utf8_from pending a = true ->
    utf8_from pending (a ++ b) = utf8_from [] b.
Proof.
  induction a as [|c a IH]; intros pending Ha; cbn [append utf8_from] in *.
  - now destruct pending.
  - destruct (utf8_step pending (nat_of_ascii c)) as [pending'|];
      [now apply IH | discriminate].
Qed.

Lemma valid_utf8_app (a b : string) :
  valid_utf8 a = true -> valid_utf8 b = true -> valid_utf8 (a ++ b) = true.
Proof.
  unfold valid_utf8. intros Ha Hb. now rewrite (utf8_from_app a b [] Ha).
Qed.

(** A text of ASCII characters. *)
Definition is_ascii (s : string) : bool :=
  forallb (fun c => (nat_of_ascii c <? 128)%nat) (list_ascii_of_string s).

Lemma is_ascii_app (a b : string) :
  is_ascii (a ++ b) = is_ascii a && is_ascii b.
Proof. unfold is_ascii. now rewrite list_ascii_app, forallb_app. Qed.

Lemma valid_utf8_ascii (s : string) : is_ascii s = true -> valid_utf8 s = true.
Proof.
  unfold is_ascii, valid_utf8.
  induction s as [|c s IH]; [reflexivity|].
  cbn [list_ascii_of_string forallb utf8_from utf8_step].
  intros H. apply andb_true_iff in H as [Hc Hs]. rewrite Hc. now apply IH.
Qed.

Lemma is_lower_hex_ascii (c : ascii) :
  is_lower_hex c = true -> (nat_of_ascii c <? 128)%nat = true.
Proof.
  unfold is_lower_hex. cbv zeta. intros H. apply Nat.ltb_lt.
  apply orb_true_iff in H as [H|H]; apply andb_true_iff in H as [_ H];
    apply Nat.leb_le in H; lia.
Qed.

Lemma valid_utf8_md5_hex (d : string) :
  is_md5_hex d = true -> valid_utf8 d = true.
Proof.
  unfold is_md5_hex. intros H. apply andb_true_iff in H as [_ H].
  apply valid_utf8_ascii. unfold is_ascii.
  rewrite forallb_forall in *. intros c Hc.
  now apply is_lower_hex_ascii, H.
Qed.

Lemma is_ascii_uint (d : Decimal.uint) :
  is_ascii (NilEmpty.string_of_uint d) = true.
Proof. induction d; cbn; auto. Qed.

Lemma is_ascii_nilzero (d : Decimal.uint) :
  is_ascii (NilZero.string_of_uint d) = true.
Proof.
  unfold NilZero.string_of_uint.
  destruct d; try reflexivity; apply (is_ascii_uint (_ _)).
Qed.

Lemma is_ascii_dec_nat (n : nat) : is_ascii (dec_nat n) = true.
Proof. apply is_ascii_nilzero. Qed.

Lemma is_ascii_dec_Z (z : Z) : is_ascii (dec_Z z) = true.
Proof.
  unfold dec_Z, NilZero.string_of_int.
  destruct (Z.to_int z) as [d|d]; [apply is_ascii_nilzero|].
  change (is_ascii (String "-" (NilZero.string_of_uint d)))
    with (true && is_ascii (NilZero.string_of_uint d)).
  apply is_ascii_nilzero.
Qed.

Lemma writerow_ok (E : env) (r : row) (s : state) :
  row_encodable r = true ->
  writerow E r s =
  (Ok tt, mk_state (calls s) (report s ++ [r]) (stdout s) (stderr s)
                   (file_count s) (error_count s)).
Proof. intros H. unfold writerow. now rewrite H. Qed.

Lemma writerow_fails (E : env) (r : row) (s : state) :
  row_encodable r = false ->
  writerow E r s = (Raise (UnicodeEncodeError (e_codec_message E r)), s).
Proof. intros H. unfold writerow. now rewrite H. Qed.

Lemma writerow_header (E : env) (s : state) :
  writerow E header s =
  (Ok tt, mk_state (calls s) (report s ++ [header]) (stdout s) (stderr s)
                   (file_count s) (error_count s)).
Proof. reflexivity. Qed.

Lemma print_progress_ok (E : env) (line : string) (s : state) :
  e_stdout_error E line = None -> print_progress E line s = print line s.
Proof. intros H. unfold print_progress. now rewrite H. Qed.

Lemma silent_read (E : env) (hd : handle) (n : nat) : silent (read E hd n).
Proof. unfold read. auto with silent. Qed.

Lemma silent_read_chunks (E : env) (fuel n : nat) :
  forall hd acc, silent (read_chunks E fuel n hd acc).
Proof.
  induction fuel as [|fuel IH]; intros hd acc; cbn [read_chunks].
  - auto with silent.
  - apply silent_bind; [apply silent_read|].
    intros [chunk hd']. cbn [fst snd].
    destruct chunk; [auto with silent | apply IH].
Qed.

(** The hasher writes no row and touches no counter. *)
Lemma silent_calculate_md5_with (E : env) (n : nat) (p : string) (f : file) :
  silent (calculate_md5_with E n p f).
Proof.
  unfold calculate_md5_with.
  apply silent_bind; [auto with silent|]. intros _.
  apply silent_try.
  - apply silent_bind; [unfold open_rb; auto with silent|]. intros hd.
    apply silent_bind; [apply silent_read_chunks|]. intros m.
    auto with silent.
  - intros e. apply silent_bind; auto with silent.
Qed.

(** What the hasher returns is a digest text or [None]. *)
Lemma returns_calculate_md5_with (E : env) (n : nat) (p : string) (f : file) :
  returns (calculate_md5_with E n p f)
          (fun v => v = None \/ exists st, v = Some (MD5.hexdigest st)).
Proof.
  unfold calculate_md5_with.
  apply returns_bind. intros _.
  apply returns_try.
  - apply returns_bind. intros hd. apply returns_bind. intros m.
    apply returns_ret. right. now exists m.
  - intros e. apply returns_bind. intros _. apply returns_ret. now left.
Qed.

(* ------------------------------------------------------------------ *)
(** ** Induction on directory trees *)

Section NodeInduction.

Variable P : node -> Prop.
Hypothesis P_File : forall f, P (File f).
Hypothesis P_Dir :
  forall listable entries,
    Forall (fun entry => P (snd entry)) entries -> P (Dir listable entries).

Fixpoint node_induction (n : node) : P n :=
  match n with
  | File f => P_File f
  | Dir listable entries =>
      P_Dir listable entries
        ((fix all (es : list (string * node))
            : Forall (fun entry => P (snd entry)) es :=
            match es with
            | [] => Forall_nil _
            | e :: es' => Forall_cons e (node_induction (snd e)) (all es')
            end) entries)
  end.

End NodeInduction.

(* ------------------------------------------------------------------ *)
(** ** Digest and status of every row *)

(** The digest field of a row is a 32-character lowercase hexadecimal
    text exactly when the status is [Success], and is [N/A] otherwise. *)
Definition digest_matches_status (r : row) : Prop :=
  (is_md5_hex (field_md5 r) = true <-> field_status r = "Success") /\
  (field_status r <> "Success" -> field_md5 r = "N/A").

(** The report is the header followed by rows that satisfy
    [digest_matches_status]. *)
Definition rows_match (l : list row * nat * nat) : Prop :=
  exists rows,
    fst (fst l) = header :: rows /\ Forall digest_matches_status rows.

Definition keeps {A} (m : M A) : Prop := sound rows_match m (fun _ => True).

Lemma keeps_silent {A} (m : M A) : silent m -> keeps m.
Proof. intros H. apply sound_silent; [assumption | intros s a _; exact I]. Qed.

Lemma keeps_bind {A B} (m : M A) (k : A -> M B) :
  keeps m -> (forall a, keeps (k a)) -> keeps (bind m k).
Proof. intros Hm Hk. eapply sound_bind; [exact Hm | intros a _; apply Hk]. Qed.

Lemma keeps_incr_file_count : keeps incr_file_count.
Proof. intros s HR. split; [exact HR | trivial]. Qed.

Lemma keeps_incr_error_count : keeps incr_error_count.
Proof. intros s HR. split; [exact HR | trivial]. Qed.

Lemma keeps_writerow (E : env) (r : row) :
  digest_matches_status r -> keeps (writerow E r).
Proof.
  intros Hr s HR. split; [|trivial]. unfold writerow.
  destruct (row_encodable r); [|exact HR].
  destruct HR as [rows [Hrep Hall]].
  exists (rows ++ [r])%list. cbn [snd ledger fst report] in *. split.
  - now rewrite Hrep.
  - apply Forall_app. split; [assumption | now constructor].
Qed.

Lemma success_row_matches (p : string) (st : MD5.t) (size : Z) :
  digest_matches_status
    [Str p; Str (MD5.hexdigest st); Int size; Str "Success"].
Proof.
  split; [split; intros _|intros H; now elim H].
  - reflexivity.
  - apply MD5Facts.hexdigest_ok.
Qed.

Lemma error_row_matches (p : string) (size : cell) (reason : string) :
  digest_matches_status [Str p; Str "N/A"; size; Str ("Error - " ++ reason)].
Proof.
  split; [split; intros H; discriminate H | intros _; reflexivity].
Qed.

Lemma keeps_process_file (E : env) (verbose : bool) (root : string)
    (entry : string * file) :
  keeps (process_file E verbose root entry).
Proof.
  unfold process_file. apply sound_try.
  - apply keeps_bind; [apply keeps_silent, silent_step|]. intros size.
    eapply sound_bind.
    + apply sound_silent;
        [apply silent_calculate_md5_with | apply returns_calculate_md5_with].
    + intros v [->|[st ->]].
      * cbn [truthy]. apply keeps_bind; [apply keeps_incr_error_count|].
        intros _. apply keeps_writerow.
        apply (error_row_matches _ (Int size) "Could not read file").
      * rewrite MD5Facts.hexdigest_truthy.
        apply keeps_bind; [apply keeps_incr_file_count|]. intros _.
        apply keeps_bind.
        { destruct verbose; [|apply keeps_silent, silent_ret].
          apply keeps_silent, silent_bind; auto with silent. }
        intros _. apply keeps_writerow, success_row_matches.
  - intros e. apply keeps_bind; [apply keeps_incr_error_count|]. intros _.
    apply keeps_bind; [apply keeps_silent, silent_print_err|]. intros _.
    apply keeps_writerow, (error_row_matches _ (Str "N/A")).
Qed.

Lemma keeps_os_walk (E : env)
    (body : string -> list string -> list (string * file) -> M unit) :
  (forall root ds fs, keeps (body root ds fs)) ->
  forall n top, keeps (os_walk E body top n).
Proof.
  intros Hbody n.
  induction n as [f | listable entries IH] using node_induction; intros top.
  - apply keeps_silent, silent_step.
  - destruct listable; [|apply keeps_silent, silent_step].
    cbn [os_walk].
    apply keeps_bind; [apply keeps_silent, silent_step|]. intros _.
    apply keeps_bind; [apply Hbody|]. intros _.
    induction IH as [|[name d] es Hd _ IHes].
    + apply keeps_silent, silent_ret.
    + destruct d as [f | l es'].
      * exact IHes.
      * apply keeps_bind; [apply Hd | intros _; exact IHes].
Qed.

Lemma keeps_scan_loop (E : env) (root_path : string) (verbose : bool) :
  keeps (scan_loop E root_path verbose).
Proof.
  unfold scan_loop. destruct (e_fs E root_path) as [n|]; [|apply keeps_silent, silent_step].
  apply keeps_os_walk. intros root ds fs.
  apply sound_for_each. intros x. apply keeps_process_file.
Qed.

Lemma bind_ok {A B} (m : M A) (k : A -> M B) (s s1 : state) (a : A) :
  m s = (Ok a, s1) -> bind m k s = k a s1.
Proof. intros H. unfold bind. now rewrite H. Qed.

Lemma bind_raise {A B} (m : M A) (k : A -> M B) (s s1 : state) (e : exn) :
  m s = (Raise e, s1) -> bind m k s = (Raise e, s1).
Proof. intros H. unfold bind. now rewrite H. Qed.

(** C2. Every row the scan emits carries a 32-character lowercase
    hexadecimal digest exactly when its status is [Success], and the
    sentinel [N/A] otherwise; this holds however the scan ends.  Either
    the report could not be opened and nothing was written, or the
    report is the header followed by such rows. *)
Theorem digest_present_iff_success (E : env) (root_path output_csv : string)
    (verbose : bool) (s : state) :
  let s' := snd (scan_directory E root_path output_csv verbose s) in
  report s' = report s \/
  exists rows,
    report s' = header :: rows /\ Forall digest_matches_status rows.
Proof.
  cbv zeta. unfold scan_directory, create_output.
  rewrite (bind_ok (set_counts 0 0) _ s _ tt eq_refl).
  set (s0 := mk_state _ _ _ _ 0 0).
  set (create := step E (Create output_csv) _).
  pose proof (silent_step E (Create output_csv)
                (match e_create_error E output_csv with
                 | Some e => Raise (raise_os e (Some output_csv))
                 | None => Ok tt
                 end) s0) as Hsil.
  fold create in Hsil.
  destruct (create s0) as [[[]|e] s1] eqn:Hcreate; cbn [snd] in Hsil.
  - right.
    rewrite (bind_ok (create ;; truncate_report) _ s0
               (mk_state (calls s1) [] (stdout s1) (stderr s1)
                         (file_count s1) (error_count s1)) tt)
      by (now rewrite (bind_ok _ _ _ _ _ Hcreate)).
    rewrite (bind_ok (writerow E header) _ _ _ tt (writerow_header E _)).
    set (s2 := mk_state _ _ _ _ _ _).
    match goal with
    | |- context [snd (?m s2)] =>
        assert (Hk : keeps m)
    end.
    { repeat (apply keeps_bind;
              [first [ apply keeps_silent; solve [auto with silent]
                     | apply keeps_scan_loop ] | intros ?]).
      apply keeps_silent; auto with silent. }
    destruct (Hk s2) as [[rows [Hrep Hall]] _].
    + exists []. split; [reflexivity | constructor].
    + exists rows. split; assumption.
  - left.
    rewrite (bind_raise (create ;; truncate_report) _ s0 s1 e)
      by (now rewrite (bind_raise _ _ _ _ _ Hcreate)).
    unfold ledger in Hsil. injection Hsil as H1 _ _. exact H1.
Qed.

(* ------------------------------------------------------------------ *)
(** ** The hasher on one file *)

Lemma step_state (E : env) {A} (ev : event) (o : result A) (s : state) :
  snd (step E ev o s) = log ev s.
Proof.
  unfold step. destruct (e_sigint E) as [k|]; [|reflexivity].
  destruct (k =? List.length (calls s))%nat; reflexivity.
Qed.

Lemma step_value (E : env) {A} (ev : event) (o : result A) (s : state) :
  fst (step E ev o s) = o \/ fst (step E ev o s) = Raise KeyboardInterrupt.
Proof.
  unfold step. destruct (e_sigint E) as [k|]; [|now left].
  destruct (k =? List.length (calls s))%nat; [now right | now left].
Qed.

Section QuietHasher.

Variable E : env.
Hypothesis quiet : e_sigint E = None.

Lemma read_chunks_fault (n : nat) (e : oserr) :
  (0 < n)%nat ->
  forall (k fuel : nat) (hd : handle) (acc : MD5.t) (s : state),
    h_fault hd = Some ((h_reads hd + k)%nat, e) ->
    (k * n < List.length (h_rest hd) + n)%nat ->
    (k < fuel)%nat ->
    exists c,
      read_chunks E fuel n hd acc s = (Raise (raise_os e None), with_calls c s).
Proof.
  intros Hn. induction k as [|k IH]; intros fuel hd acc s Hf Hlen Hfuel;
    (destruct fuel as [|fuel]; [lia|]); cbn [read_chunks].
  - rewrite Nat.add_0_r in Hf.
    erewrite bind_raise.
    + exists (Read (h_path hd) :: calls s). reflexivity.
    + unfold read. rewrite step_quiet by assumption. rewrite Hf.
      now rewrite Nat.eqb_refl.
  - erewrite bind_ok.
    2:{ unfold read. rewrite step_quiet by assumption. rewrite Hf.
        destruct (Nat.eqb_spec (h_reads hd + S k) (h_reads hd)); [lia|].
        reflexivity. }
    cbn [fst snd].
    destruct (h_rest hd) as [|b rest] eqn:Hrest; [cbn in Hlen; nia|].
    destruct n as [|n']; [lia|]. cbn [firstn].
    set (hd' := mk_handle _ _ _ _).
    destruct (IH fuel hd' (MD5.update acc (b :: firstn n' rest))
                (log (Read (h_path hd)) s)) as [c Hc].
    + subst hd'. cbn [h_fault h_reads]. try rewrite Hf. f_equal. f_equal. lia.
    + subst hd'. cbn [h_rest skipn]. rewrite length_skipn.
      cbn [List.length] in Hlen. nia.
    + lia.
    + exists c. exact Hc.
Qed.

(** On a file that can be read to the end the hasher returns the
    digest of the whole content. *)
Lemma calculate_md5_with_hashable (n : nat) (p : string) (f : file)
    (s : state) :
  (0 < n)%nat -> hashable n f = true ->
  exists c,
    calculate_md5_with E n p f s =
    (Ok (Some (MD5.md5_hex (f_data f))), with_calls c s).
Proof.
  intros Hn Hh. unfold hashable in Hh.
  destruct (f_open_error f) eqn:Hopen; [discriminate|].
  destruct (f_removed f) eqn:Hrem; [discriminate|].
  apply negb_true_iff in Hh.
  unfold calculate_md5_with.
  rewrite (bind_ok _ _ _ _ _ (step_quiet E quiet (Hash p) (Ok tt) s)).
  unfold try_except.
  set (hd := mk_handle p (f_data f) 0 (f_read_fault f)).
  assert (Hnh : never_hits n hd).
  { unfold never_hits, fault_hits in *. subst hd. cbn [h_fault h_reads h_rest].
    destruct (f_read_fault f) as [[k e]|]; [|exact I].
    apply Nat.ltb_ge in Hh. split; [lia|]. rewrite Nat.sub_0_r. exact Hh. }
  destruct (read_chunks_whole E quiet (S (List.length (f_data f))) n Hn hd
              MD5.new (log (Open p) (log (Hash p) s))) as [c Hc];
    [subst hd; cbn [h_rest]; lia | exact Hnh |].
  erewrite bind_ok.
  2:{ unfold open_rb. rewrite step_quiet by assumption.
      rewrite Hopen, Hrem. reflexivity. }
  fold hd. change (h_rest hd) with (f_data f) in *.
  rewrite (bind_ok _ _ _ _ _ Hc).
  exists c. reflexivity.
Qed.

(** On a file that does not open the hasher returns [None]. *)
Lemma calculate_md5_with_open_fails (n : nat) (p : string) (f : file)
    (s : state) :
  open_fails f = true -> fst (calculate_md5_with E n p f s) = Ok None.
Proof.
  intros Hf. unfold calculate_md5_with.
  rewrite (bind_ok _ _ _ _ _ (step_quiet E quiet (Hash p) (Ok tt) s)).
  unfold try_except, open_fails in *.
  assert (Hopen : exists e,
             open_rb E p f (log (Hash p) s) =
             (Raise (raise_os e (Some p)), log (Open p) (log (Hash p) s))).
  { unfold open_rb. rewrite step_quiet by assumption.
    destruct (f_removed f) as [r|]; [now exists ENOENT|].
    destruct (f_open_error f) as [e|]; [now exists e | discriminate]. }
  destruct Hopen as [e He].
  rewrite (bind_raise _ _ _ _ _ He). reflexivity.
Qed.

(** On a file that opens and then fails under a read call of the loop
    the hasher returns [None] as well. *)
Lemma calculate_md5_with_read_fails (n : nat) (p : string) (f : file)
    (s : state) :
  (0 < n)%nat -> read_fails n f = true ->
  fst (calculate_md5_with E n p f s) = Ok None.
Proof.
  intros Hn Hf. unfold read_fails in Hf.
  destruct (f_open_error f) eqn:Hopen; [discriminate|].
  destruct (f_removed f) eqn:Hrem; [discriminate|].
  unfold fault_hits in Hf.
  destruct (f_read_fault f) as [[k e]|] eqn:Hfault; [|discriminate].
  apply Nat.ltb_lt in Hf.
  unfold calculate_md5_with.
  rewrite (bind_ok _ _ _ _ _ (step_quiet E quiet (Hash p) (Ok tt) s)).
  unfold try_except.
  set (hd := mk_handle p (f_data f) 0 (f_read_fault f)).
  destruct (read_chunks_fault n e Hn k (S (List.length (f_data f))) hd
              MD5.new (log (Open p) (log (Hash p) s))) as [c Hc].
  - subst hd. cbn [h_fault h_reads]. now rewrite Hfault.
  - exact Hf.
  - nia.
  - erewrite bind_ok.
    2:{ unfold open_rb. rewrite step_quiet by assumption.
        rewrite Hopen, Hrem. reflexivity. }
    fold hd. change (h_rest hd) with (f_data f).
    rewrite (bind_raise _ _ _ _ _ Hc). reflexivity.
Qed.

End QuietHasher.

Lemma chunk_size_positive : (0 < 8192)%nat.
Proof. apply Nat.ltb_lt. vm_compute. reflexivity. Qed.

(** C6. A file that opens and then fails under a read call of the loop
    makes the hasher return [None], the very outcome of a file that does
    not open: no digest, partial or other, reaches the caller. *)
Theorem read_error_is_open_failure (E : env) (p : string)
    (f_read f_open : file) (s : state) :
  e_sigint E = None ->
  read_fails 8192 f_read = true ->
  open_fails f_open = true ->
  fst (calculate_md5 E p f_read s) = Ok None /\
  fst (calculate_md5 E p f_read s) = fst (calculate_md5 E p f_open s).
Proof.
  intros quiet Hread Hopen. unfold calculate_md5.
  rewrite (calculate_md5_with_read_fails E quiet _ p f_read s
             chunk_size_positive Hread).
  rewrite (calculate_md5_with_open_fails E quiet _ p f_open s Hopen).
  split; reflexivity.
Qed.

(** C7. Hashing is a function of the content alone: fed through the
    accumulator in chunks of any positive size (8192 in the program),
    the content yields the digest of the whole content fed at once, and
    two hashings of the same content yield the same digest text. *)
Theorem digest_independent_of_chunking (E : env) (n1 n2 : nat)
    (p1 p2 : string) (f1 f2 : file) (s1 s2 : state) :
  e_sigint E = None ->
  (0 < n1)%nat -> (0 < n2)%nat ->
  hashable n1 f1 = true -> hashable n2 f2 = true ->
  f_data f1 = f_data f2 ->
  fst (calculate_md5_with E n1 p1 f1 s1) =
    Ok (Some (MD5.hexdigest (MD5.update MD5.new (f_data f1)))) /\
  fst (calculate_md5_with E n2 p2 f2 s2) =
    fst (calculate_md5_with E n1 p1 f1 s1).
Proof.
  intros quiet Hn1 Hn2 H1 H2 Hdata.
  destruct (calculate_md5_with_hashable E quiet n1 p1 f1 s1 Hn1 H1) as [c1 ->].
  destruct (calculate_md5_with_hashable E quiet n2 p2 f2 s2 Hn2 H2) as [c2 ->].
  cbn [fst]. rewrite Hdata. split; reflexivity.
Qed.

(* ------------------------------------------------------------------ *)
(** ** [repr] keeps a text encodable *)

Lemma string_app_assoc (a b c : string) :
  ((a ++ b) ++ c)%string = (a ++ b ++ c)%string.
Proof. induction a as [|x a IH]; cbn; [reflexivity | now rewrite IH]. Qed.

Lemma utf8_from_ascii (a t : string) :
  is_ascii a = true -> utf8_from [] (a ++ t) = utf8_from [] t.
Proof. intros Ha. apply utf8_from_app. now apply valid_utf8_ascii. Qed.

(** Inside a sequence only bytes from [128] up are awaited. *)
Definition high_ranges (pending : list (nat * nat)) : bool :=
  forallb (fun r => (128 <=? fst r)%nat) pending.

Lemma utf8_step_high (pending pending' : list (nat * nat)) (b : nat) :
  high_ranges pending = true ->
  utf8_step pending b = Some pending' ->
  high_ranges pending' = true.
Proof.
  intros Hh Hs. destruct pending as [|[lo hi] rest].
  - unfold utf8_step in Hs.
    repeat match type of Hs with
           | context [if ?c then _ else _] => destruct c
           end;
      try discriminate; injection Hs as <-; reflexivity.
  - cbn [utf8_step] in Hs. cbn [high_ranges forallb] in Hh.
    apply andb_true_iff in Hh as [_ Hh].
    destruct ((lo <=? b) && (b <=? hi))%nat; [|discriminate].
    now injection Hs as <-.
Qed.

Lemma utf8_step_low (pending : list (nat * nat)) (b : nat) :
  high_ranges pending = true -> (b < 128)%nat ->
  utf8_step pending b = match pending with [] => Some [] | _ :: _ => None end.
Proof.
  intros Hh Hb. destruct pending as [|[lo hi] rest].
  - unfold utf8_step. apply Nat.ltb_lt in Hb. now rewrite Hb.
  - cbn [utf8_step]. cbn [high_ranges forallb fst] in Hh.
    apply andb_true_iff in Hh as [Hlo _]. apply Nat.leb_le in Hlo.
    replace (lo <=? b)%nat with false; [reflexivity|].
    symmetry. apply Nat.leb_gt. lia.
Qed.

Lemma hex_digit_ascii (k : N) : (nat_of_ascii (MD5.hex_digit k) <? 128)%nat = true.
Proof.
  unfold MD5.hex_digit. generalize (N.to_nat k). intros i.
  do 16 (destruct i as [|i]; [reflexivity|]). now destruct i.
Qed.

Lemma repr_char_high (quote c : ascii) :
  (128 <= nat_of_ascii c)%nat -> (nat_of_ascii quote < 128)%nat ->
  repr_char quote c = String c "".
Proof.
  intros Hc Hq. unfold repr_char. cbv zeta.
  destruct (Ascii.eqb_spec c quote) as [->|_]; [lia|].
  destruct (Ascii.eqb_spec c backslash) as [->|_]; [cbn in Hc; lia|].
  cbn [orb].
  destruct (Nat.eqb_spec (nat_of_ascii c) 9); [lia|].
  destruct (Nat.eqb_spec (nat_of_ascii c) 10); [lia|].
  destruct (Nat.eqb_spec (nat_of_ascii c) 13); [lia|].
  destruct (Nat.ltb_spec (nat_of_ascii c) 32); [lia|].
  destruct (Nat.eqb_spec (nat_of_ascii c) 127); [lia|].
  reflexivity.
Qed.

Lemma repr_char_low (quote c : ascii) :
  (nat_of_ascii c < 128)%nat -> is_ascii (repr_char quote c) = true.
Proof.
  intros Hc. apply Nat.ltb_lt in Hc. unfold repr_char. cbv zeta.
  destruct (Ascii.eqb c quote || Ascii.eqb c backslash).
  { unfold is_ascii. cbn [list_ascii_of_string forallb]. now rewrite Hc. }
  destruct (nat_of_ascii c =? 9)%nat; [reflexivity|].
  destruct (nat_of_ascii c =? 10)%nat; [reflexivity|].
  destruct (nat_of_ascii c =? 13)%nat; [reflexivity|].
  destruct ((nat_of_ascii c <? 32) || (nat_of_ascii c =? 127))%nat.
  - unfold is_ascii, hex2. cbn [list_ascii_of_string forallb].
    now rewrite !hex_digit_ascii.
  - unfold is_ascii. cbn [list_ascii_of_string forallb]. now rewrite Hc.
Qed.

Lemma utf8_from_repr_body (quote : ascii) :
  (nat_of_ascii quote < 128)%nat ->
  forall (p : string) (pending : list (nat * nat)) (t : string),
    high_ranges pending = true ->
    utf8_from pending p = true ->
    utf8_from pending (repr_body quote p ++ t) = utf8_from [] t.
Proof.
  intros Hq. induction p as [|c p IH]; intros pending t Hh Hp.
  - cbn [repr_body append]. now destruct pending.
  - cbn [repr_body utf8_from] in *.
    destruct (le_lt_dec 128 (nat_of_ascii c)) as [Hc|Hc].
    + rewrite (repr_char_high quote c Hc Hq). cbn [append utf8_from].
      destruct (utf8_step pending (nat_of_ascii c)) as [pending'|] eqn:Hs;
        [|discriminate].
      apply IH; [|exact Hp]. exact (utf8_step_high _ _ _ Hh Hs).
    + rewrite (utf8_step_low pending _ Hh Hc) in Hp.
      destruct pending; [|discriminate].
      rewrite string_app_assoc, utf8_from_ascii by now apply repr_char_low.
      now apply IH.
Qed.

Lemma valid_utf8_repr (p : string) :
  valid_utf8 p = true -> valid_utf8 (repr p) = true.
Proof.
  intros Hp. unfold repr. cbv zeta.
  assert (Hq : (nat_of_ascii (repr_quote p) < 128)%nat).
  { unfold repr_quote.
    destruct (has_char squote p && negb (has_char dquote p)); cbn; lia. }
  unfold valid_utf8. cbn [utf8_from].
  rewrite (utf8_step_low [] _ eq_refl Hq).
  rewrite (utf8_from_repr_body _ Hq p [] _ eq_refl Hp).
  cbn [utf8_from]. now rewrite (utf8_step_low [] _ eq_refl Hq).
Qed.

Lemma valid_utf8_literal_app (a b : string) :
  is_ascii a = true -> valid_utf8 b = true -> valid_utf8 (a ++ b) = true.
Proof. intros Ha Hb. apply valid_utf8_app; [now apply valid_utf8_ascii | exact Hb]. Qed.

(** The text of an operating-system error about an encodable path. *)
Lemma valid_utf8_str_os (e : oserr) (p : string) :
  valid_utf8 (strerror e) = true -> valid_utf8 p = true ->
  valid_utf8 (str_exn (raise_os e (Some p))) = true.
Proof.
  intros He Hp. unfold raise_os, str_exn.
  apply valid_utf8_literal_app; [reflexivity|].
  apply valid_utf8_literal_app; [apply is_ascii_dec_nat|].
  apply valid_utf8_literal_app; [reflexivity|].
  apply valid_utf8_app; [exact He|].
  apply valid_utf8_literal_app; [reflexivity|].
  now apply valid_utf8_repr.
Qed.

(* ------------------------------------------------------------------ *)
(** ** One turn of the scan loop *)

(** The row and the message of a file whose size query failed. *)
Definition size_error_row (file_path : string) (e : exn) : row :=
  [Str file_path; Str "N/A"; Str "N/A"; Str ("Error - " ++ str_exn e)].

Definition read_error_row_of (file_path : string) (size : Z) : row :=
  [Str file_path; Str "N/A"; Int size; Str "Error - Could not read file"].

(** The row of a file that was sized and hashed. *)
Definition success_row (file_path : string) (f : file) : row :=
  [Str file_path; Str (MD5.md5_hex (f_data f));
   Int (Z.of_nat (List.length (f_data f))); Str "Success"].

(** The progress line of [-v]. *)
Definition progress_line (fc : nat) (file_path : string) : string :=
  "[" ++ dec_nat fc ++ "] " ++ file_path.

(** With [-v], the standard output takes every progress line. *)
Definition stdout_accepts (E : env) (verbose : bool) : Prop :=
  verbose = true -> forall line, e_stdout_error E line = None.

(** The error of the size query on a file, if it fails. *)
Definition size_query_error (f : file) : option oserr :=
  match f_removed f, f_stat_error f with
  | Some BeforeSize, _ => Some ENOENT
  | _, Some e => Some e
  | _, None => None
  end.

(** The row [scan_directory] writes for a file, read off its three
    branches: the size query fails, the hasher returns [None], or the
    hasher returns a digest. *)
Definition outcome_row (file_path : string) (f : file) : row :=
  match size_query_error f with
  | Some e => size_error_row file_path (raise_os e (Some file_path))
  | None =>
      if hashable 8192 f then success_row file_path f
      else read_error_row_of file_path (Z.of_nat (List.length (f_data f)))
  end.

(** A file whose row can be written: its path is valid UTF-8, and so
    is the text of the error of its size query, if that fails. *)
Definition writable (pf : string * file) : bool :=
  valid_utf8 (fst pf) &&
  match size_query_error (snd pf) with
  | Some e => valid_utf8 (strerror e)
  | None => true
  end.

Lemma success_row_encodable (file_path : string) (f : file) :
  valid_utf8 file_path = true -> row_encodable (success_row file_path f) = true.
Proof.
  intros Hp. unfold row_encodable, success_row.
  cbn [forallb cell_text]. rewrite Hp. unfold MD5.md5_hex.
  rewrite (valid_utf8_md5_hex _ (MD5Facts.hexdigest_ok _)).
  now rewrite (valid_utf8_ascii _ (is_ascii_dec_Z _)).
Qed.

Lemma read_error_row_encodable (file_path : string) (size : Z) :
  valid_utf8 file_path = true ->
  row_encodable (read_error_row_of file_path size) = true.
Proof.
  intros Hp. unfold row_encodable, read_error_row_of.
  cbn [forallb cell_text]. rewrite Hp.
  now rewrite (valid_utf8_ascii _ (is_ascii_dec_Z _)).
Qed.

Lemma size_error_row_encodable (file_path : string) (e : exn) :
  valid_utf8 file_path = true -> valid_utf8 (str_exn e) = true ->
  row_encodable (size_error_row file_path e) = true.
Proof.
  intros Hp He. unfold row_encodable, size_error_row.
  cbn [forallb cell_text]. rewrite Hp.
  now rewrite (valid_utf8_literal_app "Error - " _ eq_refl He).
Qed.

Lemma writable_row (pf : string * file) :
  writable pf = true -> row_encodable (outcome_row (fst pf) (snd pf)) = true.
Proof.
  unfold writable, outcome_row. intros H.
  apply andb_true_iff in H as [Hp He].
  destruct (size_query_error (snd pf)) as [e|].
  - apply size_error_row_encodable; [exact Hp|].
    now apply valid_utf8_str_os.
  - destruct (hashable 8192 (snd pf));
      [now apply success_row_encodable | now apply read_error_row_encodable].
Qed.

(** A row whose path cannot be encoded cannot be written. *)
Lemma row_not_encodable (file_path : string) (rest : row) :
  valid_utf8 file_path = false -> row_encodable (Str file_path :: rest) = false.
Proof. intros H. unfold row_encodable. cbn [forallb cell_text]. now rewrite H. Qed.

Lemma getsize_value (E : env) (file_path : string) (f : file) (s : state)
    (size : Z) :
  fst (getsize E file_path f s) = Ok size ->
  size = Z.of_nat (List.length (f_data f)).
Proof.
  intros H. unfold getsize in H.
  destruct (step_value E (Getsize file_path)
              (match f_removed f, f_stat_error f with
               | Some BeforeSize, _ => Raise (raise_os ENOENT (Some file_path))
               | _, Some e => Raise (raise_os e (Some file_path))
               | _, None => Ok (Z.of_nat (List.length (f_data f)))
               end) s) as [H'|H']; rewrite H in H'; [|discriminate].
  destruct (f_removed f) as [[]|]; destruct (f_stat_error f);
    try discriminate; now injection H'.
Qed.

Lemma outcome_row_path (file_path : string) (f : file) :
  field_path (outcome_row file_path f) = file_path.
Proof.
  unfold outcome_row.
  destruct (size_query_error f); [reflexivity|].
  destruct (hashable 8192 f); reflexivity.
Qed.

Lemma error_status_not_success (reason : string) :
  ("Error - " ++ reason)%string <> "Success".
Proof. discriminate. Qed.

Lemma readable_sized (f : file) :
  readable f = true -> size_query_error f = None /\ hashable 8192 f = true.
Proof.
  unfold readable, size_query_error, hashable.
  destruct (f_stat_error f); [discriminate|].
  destruct (f_open_error f); [discriminate|].
  destruct (f_removed f); [discriminate|]. auto.
Qed.

Lemma not_readable (f : file) :
  readable f = false ->
  (exists e, size_query_error f = Some e) \/
  (size_query_error f = None /\ hashable 8192 f = false).
Proof.
  unfold readable, size_query_error, hashable.
  destruct (f_stat_error f) as [e|].
  - intros _. left. destruct (f_removed f) as [[]|]; eauto.
  - destruct (f_removed f) as [[]|]; [left; eauto | |].
    + intros _. right. split; [reflexivity|]. now destruct (f_open_error f).
    + intros H. right. split; [reflexivity|]. exact H.
Qed.

Lemma outcome_row_status (file_path : string) (f : file) :
  field_status (outcome_row file_path f) = "Success" <-> readable f = true.
Proof.
  unfold outcome_row. destruct (readable f) eqn:Hr.
  - destruct (readable_sized f Hr) as [-> ->]. split; reflexivity.
  - destruct (not_readable f Hr) as [[e ->] | [-> ->]]; split;
      try discriminate; intros H; now apply error_status_not_success in H.
Qed.
(* ------------------------------------------------------------------ *)
(** ** More on the hasher *)

(** An exception that leaves the computation is not of a class the
    handler catches when the handler itself cannot raise it. *)
Lemma try_except_escapes {A} (body : M A) (classes : exn -> bool)
    (handler : exn -> M A) (s : state) (e : exn) :
  (forall e' s', classes e' = true -> fst (handler e' s') <> Raise e) ->
  fst (try_except body classes handler s) = Raise e ->
  classes e = false.
Proof.
  intros Hh. unfold try_except.
  destruct (body s) as [[a|e0] s0]; cbn [fst]; [discriminate|].
  destruct (classes e0) eqn:Hc.
  - intros H. now elim (Hh e0 s0 Hc).
  - cbn [fst]. intros H. injection H as <-. exact Hc.
Qed.

(** X1. Whatever happens to the file and whenever the user interrupts,
    [calculate_md5] returns [None] or a 32-character lowercase
    hexadecimal text, and no [OSError] ever leaves it. *)
Theorem hasher_contains_os_errors (E : env) (p : string) (f : file)
    (s : state) :
  match fst (calculate_md5 E p f s) with
  | Ok None => True
  | Ok (Some d) => is_md5_hex d = true
  | Raise e => is_OSError e = false
  end.
Proof.
  destruct (fst (calculate_md5 E p f s)) as [[d|]|e] eqn:Hr; [| exact I |].
  - destruct (returns_calculate_md5_with E 8192 p f s (Some d) Hr)
      as [H|[st H]]; [discriminate|].
    injection H as ->. apply MD5Facts.hexdigest_ok.
  - unfold calculate_md5, calculate_md5_with in Hr. unfold bind at 1 in Hr.
    pose proof (step_value E (Hash p) (Ok tt) s) as Hv.
    destruct (step E (Hash p) (Ok tt) s) as [[[]|e0] s0]; cbn [fst] in Hv.
    + eapply try_except_escapes; [|exact Hr].
      intros e' s' _. cbv [bind print_err ret fst]. discriminate.
    + cbn [fst] in Hr. injection Hr as <-.
      destruct Hv as [Hv|Hv]; [discriminate|].
      injection Hv as Hv. now subst e0.
Qed.

Section QuietHasherTotal.

Variable E : env.
Hypothesis quiet : e_sigint E = None.

Lemma calculate_md5_with_open_fails_run (n : nat) (p : string) (f : file)
    (s : state) :
  open_fails f = true ->
  exists e,
    calculate_md5_with E n p f s =
    (Ok None,
     mk_state (Open p :: Hash p :: calls s) (report s) (stdout s)
              (stderr s ++
               [("Error reading " ++ p ++ ": " ++
                 str_exn (raise_os e (Some p)))%string])
              (file_count s) (error_count s)).
Proof.
  intros Hf. unfold calculate_md5_with.
  rewrite (bind_ok _ _ _ _ _ (step_quiet E quiet (Hash p) (Ok tt) s)).
  unfold try_except, open_fails in *.
  assert (Hopen : exists e,
             open_rb E p f (log (Hash p) s) =
             (Raise (raise_os e (Some p)), log (Open p) (log (Hash p) s))).
  { unfold open_rb. rewrite step_quiet by assumption.
    destruct (f_removed f) as [r|]; [now exists ENOENT|].
    destruct (f_open_error f) as [e|]; [now exists e | discriminate]. }
  destruct Hopen as [e He]. exists e.
  rewrite (bind_raise _ _ _ _ _ He). reflexivity.
Qed.

Lemma calculate_md5_with_read_fails_run (n : nat) (p : string) (f : file)
    (s : state) :
  (0 < n)%nat -> read_fails n f = true ->
  exists e c,
    calculate_md5_with E n p f s =
    (Ok None,
     mk_state c (report s) (stdout s)
              (stderr s ++
               [("Error reading " ++ p ++ ": " ++
                 str_exn (raise_os e None))%string])
              (file_count s) (error_count s)).
Proof.
  intros Hn Hf. unfold read_fails in Hf.
  destruct (f_open_error f) eqn:Hopen; [discriminate|].
  destruct (f_removed f) eqn:Hrem; [discriminate|].
  unfold fault_hits in Hf.
  destruct (f_read_fault f) as [[k e]|] eqn:Hfault; [|discriminate].
  apply Nat.ltb_lt in Hf.
  unfold calculate_md5_with.
  rewrite (bind_ok _ _ _ _ _ (step_quiet E quiet (Hash p) (Ok tt) s)).
  unfold try_except.
  set (hd := mk_handle p (f_data f) 0 (f_read_fault f)).
  destruct (read_chunks_fault E quiet n e Hn k (S (List.length (f_data f))) hd
              MD5.new (log (Open p) (log (Hash p) s))) as [c Hc].
  - subst hd. cbn [h_fault h_reads]. now rewrite Hfault.
  - exact Hf.
  - nia.
  - exists e, c. erewrite bind_ok.
    2:{ unfold open_rb. rewrite step_quiet by assumption.
        rewrite Hopen, Hrem. reflexivity. }
    fold hd. change (h_rest hd) with (f_data f).
    rewrite (bind_raise _ _ _ _ _ Hc). reflexivity.
Qed.

Lemma hashable_or_fails (n : nat) (f : file) :
  hashable n f = false -> open_fails f = true \/ read_fails n f = true.
Proof.
  unfold hashable, open_fails, read_fails.
  destruct (f_open_error f); [now left|].
  destruct (f_removed f); [now left|].
  intros H. right. now apply negb_false_iff in H.
Qed.

(** With the chunk size as a parameter: the hasher always returns. *)
Lemma calculate_md5_with_total (n : nat) (p : string) (f : file) (s : state) :
  (0 < n)%nat ->
  exists s',
    calculate_md5_with E n p f s =
    (Ok (if hashable n f then Some (MD5.md5_hex (f_data f)) else None), s') /\
    ledger s' = ledger s /\
    stdout s' = stdout s /\
    if hashable n f then stderr s' = stderr s
    else exists reason,
        stderr s' =
        (stderr s ++ [("Error reading " ++ p ++ ": " ++ reason)%string])%list.
Proof.
  intros Hn. destruct (hashable n f) eqn:Hh.
  - destruct (calculate_md5_with_hashable E quiet n p f s Hn Hh) as [c Hc].
    exists (with_calls c s). repeat split. exact Hc.
  - destruct (hashable_or_fails n f Hh) as [Ho|Hr].
    + destruct (calculate_md5_with_open_fails_run n p f s Ho) as [e He].
      eexists. split; [exact He|]. repeat split.
      now exists (str_exn (raise_os e (Some p))).
    + destruct (calculate_md5_with_read_fails_run n p f s Hn Hr)
        as [e [c He]].
      eexists. split; [exact He|]. repeat split.
      now exists (str_exn (raise_os e None)).
Qed.

End QuietHasherTotal.

(** X2. When nobody interrupts, [calculate_md5] always returns: the
    digest of the whole content when the file opens and every read call
    the loop makes succeeds, and [None] with exactly one line
    [Error reading <path>: <reason>] on the error stream in every other
    case.  It prints nothing else and changes neither the report nor
    the counters. *)
Theorem hasher_always_returns (E : env) (p : string) (f : file) (s : state) :
  e_sigint E = None ->
  exists s',
    calculate_md5 E p f s =
    (Ok (if hashable 8192 f then Some (MD5.md5_hex (f_data f)) else None), s')
    /\
    ledger s' = ledger s /\
    stdout s' = stdout s /\
    if hashable 8192 f then stderr s' = stderr s
    else exists reason,
        stderr s' =
        (stderr s ++ [("Error reading " ++ p ++ ": " ++ reason)%string])%list.
Proof.
  intros quiet.
  exact (calculate_md5_with_total E quiet 8192 p f s chunk_size_positive).
Qed.

(* ------------------------------------------------------------------ *)
(** ** The loop body when nobody interrupts *)

Lemma ledger_inv (s : state) (rep : list row) (fc ec : nat) :
  ledger s = (rep, fc, ec) ->
  report s = rep /\ file_count s = fc /\ error_count s = ec.
Proof. unfold ledger. intros H. injection H as -> -> ->. repeat split. Qed.

Lemma for_each_app {A} (xs ys : list A) (body : A -> M unit) (s s1 : state) :
  for_each xs body s = (Ok tt, s1) ->
  for_each (xs ++ ys) body s = for_each ys body s1.
Proof.
  revert s. induction xs as [|x xs IH]; intros s H; cbn [for_each app] in *.
  - now injection H as <-.
  - unfold bind in *. destruct (body x s) as [[[]|e] s0]; [auto | discriminate].
Qed.

(** The handler of the loop body, when its row can be written. *)
Lemma handler_writes (E : env) (file_path : string) (e : exn) (s : state) :
  row_encodable (size_error_row file_path e) = true ->
  (incr_error_count ;;
   print_err ("Error processing " ++ file_path ++ ": " ++ str_exn e) ;;
   writerow E [Str file_path; Str "N/A"; Str "N/A";
               Str ("Error - " ++ str_exn e)]) s =
  (Ok tt,
   mk_state (calls s) (report s ++ [size_error_row file_path e]) (stdout s)
            (stderr s ++
             [("Error processing " ++ file_path ++ ": " ++ str_exn e)%string])
            (file_count s) (S (error_count s))).
Proof.
  intros Hrow. unfold bind. cbn [incr_error_count print_err].
  fold (size_error_row file_path e). now rewrite writerow_ok.
Qed.

(** The handler of the loop body, when its row cannot be written: the
    error of the writer leaves the loop. *)
Lemma handler_raises (E : env) (file_path : string) (e : exn) (s : state) :
  row_encodable (size_error_row file_path e) = false ->
  (incr_error_count ;;
   print_err ("Error processing " ++ file_path ++ ": " ++ str_exn e) ;;
   writerow E [Str file_path; Str "N/A"; Str "N/A";
               Str ("Error - " ++ str_exn e)]) s =
  (Raise (UnicodeEncodeError
            (e_codec_message E (size_error_row file_path e))),
   mk_state (calls s) (report s) (stdout s)
            (stderr s ++
             [("Error processing " ++ file_path ++ ": " ++ str_exn e)%string])
            (file_count s) (S (error_count s))).
Proof.
  intros Hrow. unfold bind. cbn [incr_error_count print_err].
  fold (size_error_row file_path e). now rewrite writerow_fails.
Qed.

Section QuietTurn.

Variable E : env.
Hypothesis quiet : e_sigint E = None.

Lemma getsize_quiet (file_path : string) (f : file) (s : state) :
  getsize E file_path f s =
  (match size_query_error f with
   | Some e => Raise (raise_os e (Some file_path))
   | None => Ok (Z.of_nat (List.length (f_data f)))
   end, log (Getsize file_path) s).
Proof.
  unfold getsize, size_query_error. rewrite step_quiet by assumption.
  destruct (f_removed f) as [[]|]; destruct (f_stat_error f); reflexivity.
Qed.

(** What the loop body does with a file whose size query fails. *)
Lemma process_file_size_fails (verbose : bool) (root name : string)
    (f : file) (s : state) (e : oserr) :
  let file_path := os_path_join root name in
  let exc := raise_os e (Some file_path) in
  size_query_error f = Some e ->
  row_encodable (size_error_row file_path exc) = true ->
  process_file E verbose root (name, f) s =
  (Ok tt,
   mk_state (Getsize file_path :: calls s)
            (report s ++ [size_error_row file_path exc])
            (stdout s)
            (stderr s ++
             [("Error processing " ++ file_path ++ ": " ++ str_exn exc)%string])
            (file_count s) (S (error_count s))).
Proof.
  intros file_path exc Hsize Hrow.
  unfold process_file. cbn [fst snd]. fold file_path. unfold try_except.
  erewrite bind_raise
    by (rewrite getsize_quiet, Hsize; reflexivity).
  change (is_Exception (raise_os e (Some file_path))) with true. cbv iota.
  fold exc. now rewrite handler_writes.
Qed.

(** What the loop body does with a file that is sized and not hashed. *)
Lemma process_file_hash_fails (verbose : bool) (root name : string)
    (f : file) (s : state) :
  let file_path := os_path_join root name in
  let size := Z.of_nat (List.length (f_data f)) in
  size_query_error f = None ->
  hashable 8192 f = false ->
  row_encodable (read_error_row_of file_path size) = true ->
  exists s',
    process_file E verbose root (name, f) s = (Ok tt, s') /\
    ledger s' =
      (report s ++ [read_error_row_of file_path size],
       file_count s, S (error_count s)) /\
    stdout s' = stdout s.
Proof.
  intros file_path size Hsize Hhash Hrow.
  destruct (calculate_md5_with_total E quiet 8192 file_path f
              (log (Getsize file_path) s) chunk_size_positive)
    as [s2 [Hrun [Hled [Hout _]]]].
  rewrite Hhash in Hrun. fold (calculate_md5 E) in Hrun.
  apply ledger_inv in Hled as (Hrep & Hfc & Hec).
  unfold process_file. cbn [fst snd]. fold file_path. unfold try_except.
  erewrite bind_ok by (rewrite getsize_quiet, Hsize; reflexivity).
  rewrite (bind_ok _ _ _ _ _ Hrun). cbn [truthy].
  rewrite (bind_ok incr_error_count _ _ _ tt eq_refl).
  fold size. fold (read_error_row_of file_path size).
  rewrite writerow_ok by exact Hrow.
  eexists. split; [reflexivity|].
  cbn [ledger report file_count error_count stdout log] in *.
  now rewrite Hrep, Hfc, Hec, Hout.
Qed.

(** What the loop body does with a file on which nothing fails. *)
Lemma process_file_readable (verbose : bool) (root name : string) (f : file)
    (s : state) :
  let file_path := os_path_join root name in
  readable f = true ->
  row_encodable (success_row file_path f) = true ->
  (verbose = true ->
   e_stdout_error E (progress_line (S (file_count s)) file_path) = None) ->
  exists s',
    process_file E verbose root (name, f) s = (Ok tt, s') /\
    ledger s' =
      (report s ++ [success_row file_path f],
       S (file_count s), error_count s) /\
    stdout s' =
      (stdout s ++
       if verbose then [progress_line (S (file_count s)) file_path]
       else [])%list.
Proof.
  intros file_path Hr Hrow Hprint.
  destruct (readable_sized f Hr) as [Hsize Hhash].
  destruct (calculate_md5_with_hashable E quiet 8192 file_path f
              (log (Getsize file_path) s) chunk_size_positive Hhash)
    as [c Hc].
  fold (calculate_md5 E) in Hc.
  unfold process_file. cbn [fst snd]. fold file_path. unfold try_except.
  erewrite bind_ok by (rewrite getsize_quiet, Hsize; reflexivity).
  rewrite (bind_ok _ _ _ _ _ Hc).
  unfold MD5.md5_hex. rewrite MD5Facts.hexdigest_truthy.
  rewrite (bind_ok incr_file_count _ _ _ tt eq_refl).
  fold (MD5.md5_hex (f_data f)). fold (success_row file_path f).
  destruct verbose; cbv iota.
  - rewrite (bind_ok (fc <- get_file_count ;; print_progress E _) _ _
               (mk_state c (report s)
                         (stdout s ++
                          [progress_line (S (file_count s)) file_path])
                         (stderr s) (S (file_count s)) (error_count s)) tt).
    2:{ rewrite (bind_ok get_file_count _ _ _ _ eq_refl).
        cbn [with_calls file_count log].
        change ("[" ++ dec_nat (S (file_count s)) ++ "] " ++ file_path)%string
          with (progress_line (S (file_count s)) file_path).
        rewrite print_progress_ok by (now apply Hprint). reflexivity. }
    rewrite writerow_ok by exact Hrow.
    eexists. split; [reflexivity|]. split; reflexivity.
  - rewrite (bind_ok (ret tt) _ _ _ tt eq_refl).
    rewrite writerow_ok by exact Hrow.
    eexists. split; [reflexivity|]. split; [reflexivity|].
    cbn [stdout with_calls]. now rewrite app_nil_r.
Qed.

(** Whatever fails in the access to the file, the loop body returns
    when the row can be written and the progress line printed: it has
    written one row and stepped one counter. *)
Lemma process_file_outcome (verbose : bool) (root name : string) (f : file)
    (s : state) :
  let file_path := os_path_join root name in
  row_encodable (outcome_row file_path f) = true ->
  stdout_accepts E verbose ->
  exists s',
    process_file E verbose root (name, f) s = (Ok tt, s') /\
    ledger s' =
      (report s ++ [outcome_row file_path f],
       (file_count s + if readable f then 1 else 0)%nat,
       (error_count s + if readable f then 0 else 1)%nat).
Proof.
  intros file_path Hrow Hout. unfold outcome_row in *.
  destruct (readable f) eqn:Hr.
  - destruct (readable_sized f Hr) as [Hsize Hhash].
    rewrite Hsize, Hhash in *.
    destruct (process_file_readable verbose root name f s Hr Hrow)
      as [s' [Hrun [Hled _]]].
    { intros Hv. now apply Hout. }
    exists s'. split; [exact Hrun|]. rewrite Hled.
    f_equal; [f_equal|]; lia.
  - destruct (not_readable f Hr) as [[e Hsize] | [Hsize Hhash]].
    + rewrite Hsize in *. eexists. split.
      * now apply (process_file_size_fails verbose root name f s e).
      * unfold ledger. cbn [report file_count error_count].
        f_equal; [f_equal|]; lia.
    + rewrite Hsize, Hhash in *.
      destruct (process_file_hash_fails verbose root name f s Hsize Hhash
                  Hrow) as [s' [Hrun [Hled _]]].
      exists s'. split; [exact Hrun|]. rewrite Hled.
      f_equal; [f_equal|]; lia.
Qed.

End QuietTurn.

(* ------------------------------------------------------------------ *)
(** ** The scan as a function of the tree *)











Section QuietOutcome.

Variable E : env.
Hypothesis quiet : e_sigint E = None.

Variable verbose : bool.
Hypothesis accepted : stdout_accepts E verbose.


Let body : string -> list string -> list (string * file) -> M unit :=
  fun root _ fs => for_each fs (process_file E verbose root).


End QuietOutcome.

(** The state in which the loops of [scan_directory] start. *)
Definition loop_start (root_path output_csv : string) (s : state) : state :=
  mk_state (Create output_csv :: calls s) [header]
           (((stdout s ++ [("Scanning: " ++ root_path)%string]) ++
             [("Output will be written to: " ++ output_csv)%string]) ++
            [dashes])%list
           (stderr s) 0 0.

Section QuietRun.

Variable E : env.
Hypothesis quiet : e_sigint E = None.

(** When the report opens, a scan whose loops return runs to its end,
    and the summary it prints is the ledger the loops left. *)
Lemma scan_directory_quiet (root_path output_csv : string) (verbose : bool)
    (s s3 : state) :
  e_create_error E output_csv = None ->
  scan_loop E root_path verbose (loop_start root_path output_csv s) =
    (Ok tt, s3) ->
  exists s',
    scan_directory E root_path output_csv verbose s = (Ok tt, s') /\
    ledger s' = ledger s3 /\
    calls s' = calls s3 /\
    stdout s' =
      (stdout s3 ++
       [dashes; "Scan complete!";
        ("Total files processed: " ++ dec_nat (file_count s3))%string;
        ("Errors encountered: " ++ dec_nat (error_count s3))%string;
        ("Results saved to: " ++ output_csv)%string])%list.
Proof.
  intros Hcreate Hloop.
  unfold scan_directory, create_output.
  rewrite (bind_ok (set_counts 0 0) _ s _ tt eq_refl).
  erewrite bind_ok.
  2:{ erewrite bind_ok; [reflexivity|].
      rewrite step_quiet by assumption. now rewrite Hcreate. }
  rewrite (bind_ok _ _ _ _ tt (writerow_header E _)).
  rewrite !(bind_ok (print _) _ _ _ tt eq_refl).
  cbn [truncate_report snd log calls report stdout stderr file_count
       error_count app].
  change (mk_state _ _ _ _ _ _) with (loop_start root_path output_csv s).
  rewrite (bind_ok _ _ _ _ _ Hloop).
  eexists. split; [reflexivity|]. split; [reflexivity|].
  split; [reflexivity|].
  cbn [stdout]. repeat rewrite <- app_assoc. reflexivity.
Qed.


End QuietRun.
(* ------------------------------------------------------------------ *)
(** ** Whole scans that nobody interrupts *)

(** The regular files of a tree. *)
Fixpoint count_files (n : node) : nat :=
  match n with
  | File _ => 1
  | Dir _ entries => list_sum (map (fun entry => count_files (snd entry)) entries)
  end.


(** The files below the subdirectories among [entries]. *)
Definition count_below (entries : list (string * node)) : nat :=
  list_sum (map (fun entry => match snd entry with
                              | File _ => 0
                              | Dir _ _ => count_files (snd entry)
                              end) entries).

Lemma count_files_split (entries : list (string * node)) :
  list_sum (map (fun entry => count_files (snd entry)) entries) =
  (List.length (files entries) + count_below entries)%nat.
Proof.
  unfold count_below.
  induction entries as [|[name d] es IH]; [reflexivity|].
  change (list_sum (map (fun entry => count_files (snd entry)) ((name, d) :: es)))
    with (count_files d +
          list_sum (map (fun entry => count_files (snd entry)) es))%nat.
  rewrite IH.
  destruct d as [f | l es']; cbn [files List.length map snd].
  - change (count_files (File f)) with 1%nat.
    change (list_sum (0%nat :: ?l)) with (0 + list_sum l)%nat. lia.
  - change (list_sum (?x :: ?l)) with (x + list_sum l)%nat. lia.
Qed.

Lemma count_below_cons (name : string) (d : node)
    (entries : list (string * node)) :
  count_below ((name, d) :: entries) =
  (match d with File _ => 0 | Dir _ _ => count_files d end +
   count_below entries)%nat.
Proof. reflexivity. Qed.

Lemma count_files_Dir (listable : bool) (entries : list (string * node)) :
  count_files (Dir listable entries) =
  (List.length (files entries) + count_below entries)%nat.
Proof. exact (count_files_split entries). Qed.



Section QuietScan.

Variable E : env.
Hypothesis quiet : e_sigint E = None.

Variable verbose : bool.

Let body : string -> list string -> list (string * file) -> M unit :=
  fun root _ fs => for_each fs (process_file E verbose root).

(** A walk over a tree without files writes no row and counts
    nothing. *)
Lemma os_walk_no_files (n : node) :
  forall top s,
    count_files n = 0%nat ->
    exists c, os_walk E body top n s = (Ok tt, with_calls c s).
Proof.
  induction n as [f | l es IH] using node_induction; intros top s Hcount;
    [discriminate|].
  destruct l.
  2:{ cbn [os_walk]. rewrite step_quiet by assumption.
      now exists (Scandir top :: calls s). }
  change (os_walk E body top (Dir true es))
    with (step E (Scandir top) (Ok tt) ;;
          body top (dirnames es) (files es) ;;
          walk_subdirs E body top es).
  rewrite (bind_ok _ _ _ _ _ (step_quiet E quiet (Scandir top) (Ok tt) s)).
  rewrite count_files_Dir in Hcount.
  assert (Hfiles : files es = []).
  { destruct (files es); [reflexivity | cbn in Hcount; lia]. }
  assert (Hbelow : count_below es = 0%nat) by lia.
  unfold body at 1. rewrite Hfiles. cbn [for_each].
  rewrite (bind_ok (ret tt) _ _ _ tt eq_refl).
  assert (Hsub : forall s1,
             exists c, walk_subdirs E body top es s1 = (Ok tt, with_calls c s1)).
  { clear Hcount Hfiles s.
    induction IH as [|[name d] es' Hd _ IHes]; intros s1.
    - exists (calls s1). now destruct s1.
    - rewrite count_below_cons in Hbelow. cbn [snd] in Hd.
      destruct d as [f | l' es''].
      + apply IHes. exact Hbelow.
      + change (walk_subdirs E body top ((name, Dir l' es'') :: es'))
          with (os_walk E body (os_path_join top name) (Dir l' es'') ;;
                walk_subdirs E body top es').
        destruct (Hd (os_path_join top name) s1) as [c1 Hrun]; [lia|].
        rewrite (bind_ok _ _ _ _ _ Hrun).
        destruct (IHes ltac:(lia) (with_calls c1 s1)) as [c2 Hrun2].
        exists c2. exact Hrun2. }
  destruct (Hsub (log (Scandir top) s)) as [c Hc].
  exists c. exact Hc.
Qed.

End QuietScan.


(** C9. A scan of a root directory without any regular file, an empty
    tree included, runs to its end: the report is the header row alone
    and the summary shows no file processed and no error. *)
Theorem no_files_header_only (E : env) (root_path output_csv : string)
    (verbose : bool) (s : state) (n : node) :
  e_sigint E = None ->
  e_create_error E output_csv = None ->
  e_fs E root_path = Some n ->
  count_files n = 0%nat ->
  exists s',
    scan_directory E root_path output_csv verbose s = (Ok tt, s') /\
    report s' = [header] /\
    file_count s' = 0%nat /\ error_count s' = 0%nat /\
    In "Total files processed: 0" (stdout s') /\
    In "Errors encountered: 0" (stdout s').
Proof.
  intros quiet Hcreate Hfs Hcount.
  destruct (os_walk_no_files E quiet verbose n root_path
              (loop_start root_path output_csv s) Hcount) as [c Hwalk].
  destruct (scan_directory_quiet E quiet root_path output_csv verbose s
              (with_calls c (loop_start root_path output_csv s))
              Hcreate) as [s' [Hrun [Hled [_ Hout]]]].
  { unfold scan_loop. rewrite Hfs. exact Hwalk. }
  apply ledger_inv in Hled as (Hrep & Hfc & Hec).
  exists s'. split; [exact Hrun|].
  repeat split; try assumption; rewrite Hout; apply in_or_app; right;
    cbn; auto.
Qed.

(* ------------------------------------------------------------------ *)
(** ** Which calls a run makes *)


Section Emits.

Context {A B : Type}.
Variable P : event -> Prop.




End Emits.













(* ------------------------------------------------------------------ *)
(** ** Rows and files *)

Definition count_status (status : string) (rows : list row) : nat :=
  List.length (filter (fun r => field_status r =? status) rows).

Lemma count_status_app (status : string) (a b : list row) :
  count_status status (a ++ b) =
  (count_status status a + count_status status b)%nat.
Proof. unfold count_status. now rewrite filter_app, length_app. Qed.

Lemma count_status_cons (status : string) (r : row) (rows : list row) :
  count_status status (r :: rows) =
  ((if (field_status r =? status)%string then 1 else 0) +
   count_status status rows)%nat.
Proof.
  unfold count_status. cbn [filter].
  now destruct (field_status r =? status).
Qed.












(* ------------------------------------------------------------------ *)
(** ** A flat directory with one file removed after it was listed *)

(** The entries of a directory that holds regular files only. *)
Definition file_entries (fl : list (string * file)) : list (string * node) :=
  map (fun entry => (fst entry, File (snd entry))) fl.







(* ------------------------------------------------------------------ *)
(** ** The exit status *)

(** The device path [main] settles on: the [-p] argument when it is
    given and not empty, the detected mount point otherwise. *)
Definition device_of (E : env) (a : args) : option string :=
  if truthy (arg_path a) then arg_path a else e_mount_point E.

Lemma resolve_no_device (E : env) (a : args) (s : state) :
  truthy (device_of E a) = false ->
  fst (resolve E a s) = Raise (SystemExit 1).
Proof.
  unfold device_of, resolve. intros H.
  destruct (truthy (arg_path a)) eqn:Ha; [congruence|].
  rewrite H. reflexivity.
Qed.

Lemma resolve_missing (E : env) (a : args) (s : state) (p : string) :
  device_of E a = Some p ->
  truthy (Some p) = true ->
  e_fs E p = None ->
  exists e,
    fst (resolve E a s) = Raise e /\
    (e = SystemExit 1 \/ e = KeyboardInterrupt).
Proof.
  unfold device_of, resolve. intros Hdev Ht Hfs.
  assert (Hcheck : forall s0,
             exists e,
               fst ((path_exists <-
                       step E (Exists p)
                         (Ok match e_fs E p with
                             | Some _ => true
                             | None => false
                             end) ;;
                     if negb path_exists then
                       print ("Error: Path does not exist: " ++ p) ;;
                       raise (SystemExit 1)
                     else
                       ret (p,
                            e_abspath E
                              (if truthy (arg_output a)
                               then match arg_output a with
                                    | Some o => o
                                    | None => ""
                                    end
                               else ("android_scan_" ++ e_timestamp E ++
                                     ".csv")%string))) s0) = Raise e /\
               (e = SystemExit 1 \/ e = KeyboardInterrupt)).
  { intros s0. unfold bind at 1.
    pose proof (step_value E (Exists p)
                  (Ok match e_fs E p with Some _ => true | None => false end)
                  s0) as Hv.
    destruct (step E (Exists p) _ s0) as [[b|e] s1]; cbn [fst] in Hv.
    - destruct Hv as [Hv|Hv]; [|discriminate].
      rewrite Hfs in Hv. injection Hv as Hb. subst b.
      exists (SystemExit 1). split; [reflexivity | now left].
    - destruct Hv as [Hv|Hv]; [discriminate|]. injection Hv as ->.
      exists KeyboardInterrupt. split; [reflexivity | now right]. }
  destruct (truthy (arg_path a)) eqn:Ha.
  - rewrite Hdev. rewrite (bind_ok (ret p) _ s s p eq_refl). apply Hcheck.
  - rewrite Hdev, Ht.
    erewrite bind_ok; [apply Hcheck|].
    unfold bind. cbn [print ret]. reflexivity.
Qed.

(** The report path [main] settles on. *)
Definition output_of (E : env) (a : args) : string :=
  e_abspath E
    (if truthy (arg_output a)
     then match arg_output a with Some o => o | None => "" end
     else ("android_scan_" ++ e_timestamp E ++ ".csv")%string).

(** A root that [os.walk] can list. *)
Definition listable_dir (n : node) : bool :=
  match n with
  | Dir true _ => true
  | _ => false
  end.

Lemma resolve_found (E : env) (a : args) (s : state) (p : string) (n : node) :
  e_sigint E = None ->
  device_of E a = Some p ->
  truthy (Some p) = true ->
  e_fs E p = Some n ->
  exists s1, resolve E a s = (Ok (p, output_of E a), s1).
Proof.
  unfold device_of, resolve. intros quiet Hdev Ht Hfs.
  assert (Hcheck : forall s0,
             (path_exists <-
                step E (Exists p)
                  (Ok match e_fs E p with
                      | Some _ => true
                      | None => false
                      end) ;;
              if negb path_exists then
                print ("Error: Path does not exist: " ++ p) ;;
                raise (SystemExit 1)
              else
                ret (p,
                     e_abspath E
                       (if truthy (arg_output a)
                        then match arg_output a with
                             | Some o => o
                             | None => ""
                             end
                        else ("android_scan_" ++ e_timestamp E ++
                              ".csv")%string))) s0 =
             (Ok (p, output_of E a), log (Exists p) s0)).
  { intros s0. rewrite (bind_ok _ _ _ _ _ (step_quiet E quiet _ _ s0)).
    now rewrite Hfs. }
  destruct (truthy (arg_path a)) eqn:Ha.
  - rewrite Hdev. rewrite (bind_ok (ret p) _ s s p eq_refl).
    eexists. apply Hcheck.
  - rewrite Hdev, Ht.
    erewrite bind_ok; [eexists; apply Hcheck|].
    unfold bind. cbn [print ret]. reflexivity.
Qed.

Lemma scan_loop_unlistable (E : env) (root_path : string) (verbose : bool)
    (n : node) (s : state) :
  e_sigint E = None ->
  e_fs E root_path = Some n ->
  listable_dir n = false ->
  scan_loop E root_path verbose s = (Ok tt, log (Scandir root_path) s).
Proof.
  intros quiet Hfs Hn. unfold scan_loop. rewrite Hfs.
  destruct n as [f | [] es]; try discriminate; cbn [os_walk];
    now apply step_quiet.
Qed.

(** C8 (amended). The exit status is zero whenever the scan runs to
    completion, error rows or not.  It is not zero when no root path is
    given or detected, when the root path does not exist, when the user
    interrupts the scan, and when the scan ends in an error.  A root
    path that exists and is not a directory that can be listed (a
    regular file, say) is not rejected: when nobody interrupts and the
    report opens, [main] returns, the exit status is zero and the
    report is the header row alone. *)
Theorem exit_status_of_main (E : env) (a : args) (s : state) :
  let status := exit_status (fst (main E a s)) in
  (truthy (device_of E a) = false -> status <> 0%Z) /\
  (forall p,
     device_of E a = Some p -> truthy (Some p) = true -> e_fs E p = None ->
     status <> 0%Z) /\
  (forall paths s1,
     resolve E a s = (Ok paths, s1) ->
     let outcome :=
       fst (scan_directory E (fst paths) (snd paths) (arg_verbose a) s1) in
     (outcome = Ok tt -> status = 0%Z) /\
     (outcome = Raise KeyboardInterrupt -> status <> 0%Z) /\
     (forall e, outcome = Raise e -> is_Exception e = true -> status <> 0%Z)) /\
  (forall p n,
     device_of E a = Some p -> truthy (Some p) = true ->
     e_fs E p = Some n -> listable_dir n = false ->
     e_sigint E = None ->
     e_create_error E (output_of E a) = None ->
     fst (main E a s) = Ok tt /\
     status = 0%Z /\
     report (snd (main E a s)) = [header]).
Proof.
  cbv zeta. split; [|split; [|split]].
  - intros H. pose proof (resolve_no_device E a s H) as Hr.
    unfold main, bind.
    destruct (resolve E a s) as [[paths|e] s1]; cbn [fst] in *;
      [discriminate|]. injection Hr as ->. discriminate.
  - intros p Hdev Ht Hfs.
    destruct (resolve_missing E a s p Hdev Ht Hfs) as [e [Hr He]].
    unfold main, bind.
    destruct (resolve E a s) as [[paths|e'] s1]; cbn [fst] in *;
      [discriminate|].
    injection Hr as ->. destruct He as [-> | ->]; discriminate.
  - intros paths s1 Hres. unfold main.
    rewrite (bind_ok _ _ _ _ _ Hres). unfold try_except.
    destruct (scan_directory E (fst paths) (snd paths) (arg_verbose a) s1)
      as [[[]|e] s2]; cbn [fst].
    + split; [reflexivity|]. split; [discriminate|].
      intros e H. discriminate.
    + split; [discriminate|]. split.
      * intros H. injection H as ->. cbn. discriminate.
      * intros e' H Hexn. injection H as ->.
        rewrite Hexn, orb_true_r.
        destruct (is_KeyboardInterrupt e'); cbn; discriminate.
  - intros p n Hdev Ht Hfs Hn quiet Hcreate.
    destruct (resolve_found E a s p n quiet Hdev Ht Hfs) as [s1 Hres].
    destruct (scan_directory_quiet E quiet p (output_of E a) (arg_verbose a)
                s1 _ Hcreate
                (scan_loop_unlistable E p (arg_verbose a) n _ quiet Hfs Hn))
      as [s' [Hrun [Hled _]]].
    apply ledger_inv in Hled as (Hrep & _ & _).
    unfold main. rewrite (bind_ok _ _ _ _ _ Hres). unfold try_except.
    cbn [fst snd]. rewrite Hrun. cbn [fst snd exit_status].
    repeat split. exact Hrep.
Qed.

(* ------------------------------------------------------------------ *)
(** ** Concrete runs *)

(** A file with the given text and nothing wrong with it. *)
Definition plain (text : string) : file :=
  mk_file (bytes_of_string text) None None None None.

(** The number of ASCII characters before the first other one. *)
Fixpoint first_high (s : string) : nat :=
  match s with
  | EmptyString => 0
  | String c s' => if (nat_of_ascii c <? 128)%nat then S (first_high s') else 0
  end.

(** [str] of the error of the UTF-8 codec on a row in whose path the
    byte 255 (in Python the lone surrogate [U+DCFF]) follows ASCII
    characters. *)
Definition surrogate_message (r : row) : string :=
  "'utf-8' codec can't encode character '\udcff' in position " ++
  dec_nat (first_high (field_path r)) ++ ": surrogates not allowed".

(** [str] of the error of the ASCII codec on a line in which an [e]
    with an acute accent follows ASCII characters. *)
Definition accent_message (line : string) : string :=
  "'ascii' codec can't encode character '\xe9' in position " ++
  dec_nat (first_high line) ++ ": ordinal not in range(128)".

(** A machine on which [root] names [tree], the report always opens,
    the terminal takes every line and nobody presses Ctrl-C. *)
Definition quiet_env (root : string) (tree : node) : env :=
  mk_env (fun p => if p =? root then Some tree else None)
         None (fun _ => None) None "20240101_120000" (fun p => p) 1000
         (fun p => p) (fun _ => None) surrogate_message.

(** The same machine with a terminal that takes ASCII only (as under
    [PYTHONIOENCODING=ascii]): a progress line with any other character
    makes [print] raise [UnicodeEncodeError]. *)
Definition ascii_terminal (root : string) (tree : node) : env :=
  mk_env (fun p => if p =? root then Some tree else None)
         None (fun _ => None) None "20240101_120000" (fun p => p) 1000
         (fun p => p)
         (fun line =>
            if is_ascii line then None
            else Some (UnicodeEncodeError (accent_message line)))
         surrogate_message.


(** The name [cafe.txt] with an acute accent on the [e], in UTF-8. *)
Definition cafe_name : string :=
  "caf" ++ String (ascii_of_nat 195) (String (ascii_of_nat 169) ".txt").

Definition three_before : list (string * file) :=
  [("f0", plain "zero"); ("f1", plain "one"); ("f2", plain "")].

Definition six_after : list (string * file) :=
  [("f4", plain "four"); ("f5", plain "five"); ("f6", plain "six");
   ("f7", plain "seven"); ("f8", plain "eight"); ("f9", plain "nine")].

(** [f3], removed after the walker listed it. *)
Definition gone (r : removal) : file :=
  mk_file (bytes_of_string "three") None None None (Some r).

Definition ten_files (r : removal) : list (string * file) :=
  (three_before ++ ("f3", gone r) :: six_after)%list.

Definition sdcard (r : removal) : env :=
  quiet_env "/sdcard" (Dir true (file_entries (ten_files r))).





(** C8, counterexample.  The root path names a regular file: it exists,
    so [main] scans it, the walk finds nothing to list, and the exit
    status is zero with a report that holds the header alone. *)
Lemma regular_file_root_counterexample :
  let E := quiet_env "/mnt/notes.txt" (File (plain "hello")) in
  let a := mk_args (Some "/mnt/notes.txt") (Some "/tmp/scan.csv") false in
  e_fs E "/mnt/notes.txt" = Some (File (plain "hello")) /\
  report (snd (run E a)) = [header] /\
  ~ (fst (run E a) <> 0%Z).
Proof.
  cbv zeta. split; [reflexivity|]. split; [vm_compute; reflexivity|].
  intros H. apply H. vm_compute. reflexivity.
Qed.

(** A tree with files at three depths, an empty directory included. *)
Definition small_tree : node :=
  Dir true
    [("a.txt", File (plain "abc"));
     ("sub", Dir true [("b", File (plain ""));
                       ("deep", Dir true [("c", File (plain "xyz"))])]);
     ("empty", Dir true [])].


(** One readable file, in a directory that can be listed. *)
Definition one_file (name : string) (text : string) : node :=
  Dir true [(name, File (plain text))].


(** A file whose size cannot be queried. *)
Definition unstattable : file :=
  mk_file (bytes_of_string "secret") (Some EACCES) None None None.




(** A file that can be sized and not opened. *)
Definition unopenable : file :=
  mk_file (bytes_of_string "secret") None (Some EACCES) None None.



(** Five bytes, and a device that fails on the second read call. *)
Definition failing_read : file :=
  mk_file (bytes_of_string "hello") None None (Some (1%nat, EIO)) None.

Lemma read_error_is_open_failure_witness :
  read_fails 8192 failing_read = true /\
  open_fails (gone BeforeOpen) = true /\
  fst (calculate_md5 (sdcard BeforeOpen) "/sdcard/f" failing_read
                     initial_state) = Ok None /\
  fst (calculate_md5 (sdcard BeforeOpen) "/sdcard/f" failing_read
                     initial_state) =
  fst (calculate_md5 (sdcard BeforeOpen) "/sdcard/f" (gone BeforeOpen)
                     initial_state).
Proof.
  split; [reflexivity|]. split; [reflexivity|].
  apply (read_error_is_open_failure (sdcard BeforeOpen) "/sdcard/f"
           failing_read (gone BeforeOpen) initial_state); reflexivity.
Defined.

Lemma digest_independent_of_chunking_witness :
  fst (calculate_md5_with (sdcard BeforeOpen) 3 "/sdcard/a"
                          (plain "message digest") initial_state) =
    Ok (Some (MD5.hexdigest
                (MD5.update MD5.new (f_data (plain "message digest"))))) /\
  fst (calculate_md5_with (sdcard BeforeOpen) 5 "/sdcard/b"
                          (plain "message digest") initial_state) =
  fst (calculate_md5_with (sdcard BeforeOpen) 3 "/sdcard/a"
                          (plain "message digest") initial_state).
Proof.
  apply (digest_independent_of_chunking (sdcard BeforeOpen) 3 5 "/sdcard/a"
           "/sdcard/b" (plain "message digest") (plain "message digest")
           initial_state initial_state);
    first [reflexivity | lia].
Defined.

Lemma hasher_always_returns_witness :
  exists s',
    calculate_md5 (sdcard BeforeOpen) "/sdcard/f" failing_read initial_state =
    (Ok None, s') /\
    ledger s' = ledger initial_state /\
    stdout s' = [] /\
    exists reason,
      stderr s' = [("Error reading /sdcard/f: " ++ reason)%string].
Proof.
  apply (hasher_always_returns (sdcard BeforeOpen) "/sdcard/f" failing_read
           initial_state).
  reflexivity.
Defined.

(** Directories only, one of them not listable. *)
Definition bare_tree : node :=
  Dir true [("DCIM", Dir true []); ("private", Dir false [])].

Lemma no_files_header_only_witness :
  exists s',
    scan_directory (quiet_env "/mnt" bare_tree) "/mnt" "/tmp/scan.csv" false
                   initial_state = (Ok tt, s') /\
    report s' = [header] /\
    file_count s' = 0%nat /\ error_count s' = 0%nat /\
    In "Total files processed: 0" (stdout s') /\
    In "Errors encountered: 0" (stdout s').
Proof.
  apply (no_files_header_only (quiet_env "/mnt" bare_tree) "/mnt"
           "/tmp/scan.csv" false initial_state bare_tree);
    reflexivity.
Defined.



Lemma exit_status_of_main_witness :
  exit_status
    (fst (main (quiet_env "/mnt" small_tree)
               (mk_args (Some "/mnt") (Some "/tmp/scan.csv") false)
               initial_state)) = 0%Z /\
  exit_status
    (fst (main (quiet_env "/mnt" small_tree)
               (mk_args (Some "/nowhere") (Some "/tmp/scan.csv") false)
               initial_state)) <> 0%Z /\
  report
    (snd (main (quiet_env "/mnt/notes.txt" (File (plain "hello")))
               (mk_args (Some "/mnt/notes.txt") (Some "/tmp/scan.csv") false)
               initial_state)) = [header].
Proof.
  split; [|split].
  - destruct (exit_status_of_main (quiet_env "/mnt" small_tree)
                (mk_args (Some "/mnt") (Some "/tmp/scan.csv") false)
                initial_state) as [_ [_ [H _]]].
    edestruct H as [H0 _]; [reflexivity|]. apply H0.
    vm_compute. reflexivity.
  - destruct (exit_status_of_main (quiet_env "/mnt" small_tree)
                (mk_args (Some "/nowhere") (Some "/tmp/scan.csv") false)
                initial_state) as [_ [H _]].
    apply (H "/nowhere"); reflexivity.
  - destruct (exit_status_of_main
                (quiet_env "/mnt/notes.txt" (File (plain "hello")))
                (mk_args (Some "/mnt/notes.txt") (Some "/tmp/scan.csv") false)
                initial_state) as [_ [_ [_ H]]].
    destruct (H "/mnt/notes.txt" (File (plain "hello"))
                eq_refl eq_refl eq_refl eq_refl eq_refl eq_refl)
      as [_ [_ Hrep]].
    exact Hrep.
Defined.

(* ------------------------------------------------------------------ *)
(** ** One row for every file, whatever fails on the device *)

(** X3. When nobody interrupts, the row of the file can be written (its
    path and the text of the error of its size query are valid UTF-8)
    and, with [-v], the progress lines are printed, the loop body of
    [scan_directory] handles the file whatever fails in the access to
    it: it returns normally, appends exactly one row, whose path is the
    joined path and whose status is [Success] exactly when the size
    query, the opening and every read succeed, and it steps exactly one
    counter, the file count on success and the error count otherwise. *)
Theorem one_row_one_counter (E : env) (verbose : bool) (root name : string)
    (f : file) (s : state) :
  e_sigint E = None ->
  writable (os_path_join root name, f) = true ->
  stdout_accepts E verbose ->
  exists s' r,
    process_file E verbose root (name, f) s = (Ok tt, s') /\
    report s' = (report s ++ [r])%list /\
    r = outcome_row (os_path_join root name) f /\
    field_path r = os_path_join root name /\
    (field_status r = "Success" <-> readable f = true) /\
    file_count s' = (file_count s + if readable f then 1 else 0)%nat /\
    error_count s' = (error_count s + if readable f then 0 else 1)%nat.
Proof.
  intros quiet Hw Hout.
  destruct (process_file_outcome E quiet verbose root name f s
              (writable_row _ Hw) Hout) as [s' [Hrun Hled]].
  apply ledger_inv in Hled as (Hrep & Hfc & Hec).
  exists s', (outcome_row (os_path_join root name) f).
  repeat split; try assumption.
  - apply outcome_row_path.
  - apply outcome_row_status.
  - apply outcome_row_status.
Qed.

Lemma one_row_one_counter_witness :
  exists s' r,
    process_file (sdcard BeforeSize) true "/sdcard" ("f3", gone BeforeSize)
                 initial_state = (Ok tt, s') /\
    report s' = [r] /\
    r = [Str "/sdcard/f3"; Str "N/A"; Str "N/A";
         Str "Error - [Errno 2] No such file or directory: '/sdcard/f3'"] /\
    field_path r = "/sdcard/f3" /\
    (field_status r = "Success" <-> false = true) /\
    file_count s' = 0%nat /\
    error_count s' = 1%nat.
Proof.
  apply (one_row_one_counter (sdcard BeforeSize) true "/sdcard" "f3"
           (gone BeforeSize) initial_state).
  - reflexivity.
  - reflexivity.
  - intros _ line. reflexivity.
Defined.


(** A tree in which every kind of failure of the device occurs. *)
Definition mixed_tree : node :=
  Dir true
    [("a.txt", File (plain "abc"));
     ("locked", File unstattable);
     ("private", Dir false [("hidden", File (plain "x"))]);
     ("sub", Dir true [("bad", File failing_read);
                       ("gone", File (gone BeforeOpen));
                       ("deep", Dir true [("c", File (plain ""))])]);
     ("z", File unopenable)].


(* ------------------------------------------------------------------ *)
(** ** The summary and the report *)

(** [m] maintains [R] on the ledger whenever it returns. *)
Definition preserves {A} (R : list row * nat * nat -> Prop) (m : M A) : Prop :=
  forall s a s', R (ledger s) -> m s = (Ok a, s') -> R (ledger s').

Lemma preserves_silent {A} (R : list row * nat * nat -> Prop) (m : M A) :
  silent m -> preserves R m.
Proof.
  intros H s a s' HR Hrun. specialize (H s). rewrite Hrun in H.
  cbn [snd] in H. now rewrite H.
Qed.

Lemma preserves_bind {A B} (R : list row * nat * nat -> Prop) (m : M A)
    (k : A -> M B) :
  preserves R m -> (forall a, preserves R (k a)) -> preserves R (bind m k).
Proof.
  intros Hm Hk s b s' HR Hrun. unfold bind in Hrun.
  destruct (m s) as [[a|e] s1] eqn:H1; [|discriminate].
  eapply Hk; [|exact Hrun]. eapply Hm; eassumption.
Qed.

Lemma preserves_for_each {A} (R : list row * nat * nat -> Prop) (xs : list A)
    (body : A -> M unit) :
  (forall x, preserves R (body x)) -> preserves R (for_each xs body).
Proof.
  intros Hb. induction xs as [|x xs IH]; cbn [for_each].
  - intros s a s' HR Hrun. injection Hrun as _ <-. exact HR.
  - apply preserves_bind; [apply Hb | intros _; exact IH].
Qed.

Lemma preserves_os_walk (R : list row * nat * nat -> Prop) (E : env)
    (body : string -> list string -> list (string * file) -> M unit) :
  (forall root ds fs, preserves R (body root ds fs)) ->
  forall n top, preserves R (os_walk E body top n).
Proof.
  assert (Hstep : forall top,
             preserves R (step E (Scandir top) (@Ok unit tt))).
  { intros top. apply preserves_silent, silent_step. }
  intros Hbody n.
  induction n as [f | listable entries IH] using node_induction; intros top.
  - apply Hstep.
  - destruct listable; [|apply Hstep].
    cbn [os_walk].
    apply preserves_bind; [apply Hstep|]. intros _.
    apply preserves_bind; [apply Hbody|]. intros _.
    induction IH as [|[name d] es Hd _ IHes].
    + apply preserves_silent, silent_ret.
    + destruct d as [f | l es'].
      * exact IHes.
      * apply preserves_bind; [apply Hd | intros _; exact IHes].
Qed.

(** The report is the header followed by rows of which as many have a
    status other than [Success] as the error count says, and at most as
    many have the status [Success] as the file count says: exactly as
    many when [exact] is set. *)
Definition tally (exact : bool) (l : list row * nat * nat) : Prop :=
  exists rows,
    fst (fst l) = header :: rows /\
    List.length rows = (count_status "Success" rows + snd l)%nat /\
    (count_status "Success" rows <= snd (fst l))%nat /\
    (exact = true -> count_status "Success" rows = snd (fst l)).

Lemma count_status_snoc (status : string) (rows : list row) (r : row) :
  count_status status (rows ++ [r]) =
  (count_status status rows +
   if (field_status r =? status)%string then 1 else 0)%nat.
Proof.
  rewrite count_status_app, count_status_cons.
  change (count_status status []) with 0%nat.
  destruct (field_status r =? status)%string; lia.
Qed.

Lemma tally_success (exact : bool) (rep : list row) (fc ec : nat)
    (p d : string) (size : cell) :
  tally exact (rep, fc, ec) ->
  tally exact ((rep ++ [[Str p; Str d; size; Str "Success"]])%list, S fc, ec).
Proof.
  intros [rows (Hrep & Hlen & Hle & Heq)]. cbn [fst snd] in *.
  exists (rows ++ [[Str p; Str d; size; Str "Success"]])%list.
  cbn [fst snd]. rewrite Hrep, count_status_snoc, length_app.
  cbn [List.length field_status field nth cell_text String.eqb Ascii.eqb
       Bool.eqb].
  repeat split; try lia. intros H. specialize (Heq H). lia.
Qed.

Lemma tally_error (exact : bool) (rep : list row) (fc ec : nat)
    (p : string) (c2 c3 : cell) (reason : string) :
  tally exact (rep, fc, ec) ->
  tally exact
    ((rep ++ [[Str p; c2; c3; Str ("Error - " ++ reason)]])%list, fc, S ec).
Proof.
  intros [rows (Hrep & Hlen & Hle & Heq)]. cbn [fst snd] in *.
  exists (rows ++ [[Str p; c2; c3; Str ("Error - " ++ reason)]])%list.
  cbn [fst snd]. rewrite Hrep, count_status_snoc, length_app.
  cbn [List.length field_status field nth cell_text String.eqb Ascii.eqb
       Bool.eqb append].
  repeat split; try lia. intros H. specialize (Heq H). lia.
Qed.

(** A file counted as processed whose row became an error row. *)
Lemma tally_counted (rep : list row) (fc ec : nat) :
  tally false (rep, fc, ec) -> tally false (rep, S fc, ec).
Proof.
  intros [rows (Hrep & Hlen & Hle & Heq)]. cbn [fst snd] in *.
  exists rows. cbn [fst snd]. repeat split; try assumption; lia.
Qed.

(** A row that starts with the path and cannot be written while its
    other cells can: the path is not UTF-8 text. *)
Lemma path_not_encodable (file_path : string) (rest : row) :
  row_encodable (Str file_path :: rest) = false ->
  row_encodable rest = true ->
  valid_utf8 file_path = false.
Proof.
  unfold row_encodable. cbn [forallb cell_text]. intros H Hrest.
  rewrite Hrest, andb_true_r in H. exact H.
Qed.

Lemma digest_cells_encodable (st : MD5.t) (size : Z) :
  row_encodable [Str (MD5.hexdigest st); Int size; Str "Success"] = true.
Proof.
  unfold row_encodable. cbn [forallb cell_text].
  rewrite (valid_utf8_md5_hex _ (MD5Facts.hexdigest_ok _)).
  now rewrite (valid_utf8_ascii _ (is_ascii_dec_Z _)).
Qed.

Lemma sentinel_cells_encodable (size : Z) :
  row_encodable [Str "N/A"; Int size; Str "Error - Could not read file"] = true.
Proof.
  unfold row_encodable. cbn [forallb cell_text].
  now rewrite (valid_utf8_ascii _ (is_ascii_dec_Z _)).
Qed.

Lemma silent_getsize (E : env) (file_path : string) (f : file) :
  silent (getsize E file_path f).
Proof. unfold getsize. apply silent_step. Qed.

(** The handler of the loop body never returns when the path is not
    UTF-8 text. *)
Lemma handler_stuck (E : env) (file_path : string) (e : exn) (s : state)
    (a : unit) (s' : state) :
  valid_utf8 file_path = false ->
  (incr_error_count ;;
   print_err ("Error processing " ++ file_path ++ ": " ++ str_exn e) ;;
   writerow E [Str file_path; Str "N/A"; Str "N/A";
               Str ("Error - " ++ str_exn e)]) s <> (Ok a, s').
Proof.
  intros Hp. fold (size_error_row file_path e).
  rewrite handler_raises by (now apply row_not_encodable). discriminate.
Qed.

(** The handler of the loop body, entered with the ledger the body
    started from. *)
Lemma handler_tally (E : env) (exact : bool) (file_path : string) (e : exn)
    (s s' : state) (a : unit) :
  tally exact (ledger s) ->
  (incr_error_count ;;
   print_err ("Error processing " ++ file_path ++ ": " ++ str_exn e) ;;
   writerow E [Str file_path; Str "N/A"; Str "N/A";
               Str ("Error - " ++ str_exn e)]) s = (Ok a, s') ->
  tally exact (ledger s').
Proof.
  intros HR Hrun. fold (size_error_row file_path e) in Hrun.
  destruct (row_encodable (size_error_row file_path e)) eqn:Hrow.
  - rewrite handler_writes in Hrun by exact Hrow. injection Hrun as _ <-.
    unfold ledger. cbn [report file_count error_count].
    apply (tally_error exact (report s) (file_count s) (error_count s)
             file_path (Str "N/A") (Str "N/A") (str_exn e) HR).
  - rewrite handler_raises in Hrun by exact Hrow. discriminate.
Qed.

Lemma tally_process_file (E : env) (verbose exact : bool) (root : string)
    (entry : string * file) :
  (exact = true -> stdout_accepts E verbose) ->
  preserves (tally exact) (process_file E verbose root entry).
Proof.
  intros Hexact s a s' HR Hrun.
  unfold process_file, try_except in Hrun.
  set (file_path := os_path_join root (fst entry)) in *.
  pose proof (silent_getsize E file_path (snd entry) s) as Hg.
  destruct (getsize E file_path (snd entry) s) as [[size|e] s1] eqn:Hsize;
    cbn [snd] in Hg.
  2:{ rewrite (bind_raise _ _ _ _ _ Hsize) in Hrun.
      destruct (is_Exception e); [|discriminate].
      apply (handler_tally E exact file_path e s1 s' a); [|exact Hrun].
      now rewrite Hg. }
  rewrite (bind_ok _ _ _ _ _ Hsize) in Hrun.
  pose proof (silent_calculate_md5_with E 8192 file_path (snd entry) s1) as Hh.
  pose proof (returns_calculate_md5_with E 8192 file_path (snd entry) s1)
    as Hv.
  fold (calculate_md5 E) in Hh, Hv.
  destruct (calculate_md5 E file_path (snd entry) s1) as [[v|e] s2] eqn:Hhash;
    cbn [fst snd] in Hh, Hv.
  2:{ rewrite (bind_raise _ _ _ _ _ Hhash) in Hrun.
      destruct (is_Exception e); [|discriminate].
      apply (handler_tally E exact file_path e s2 s' a); [|exact Hrun].
      now rewrite Hh, Hg. }
  rewrite (bind_ok _ _ _ _ _ Hhash) in Hrun.
  assert (HR2 : tally exact (ledger s2)) by (now rewrite Hh, Hg).
  clear Hsize Hhash Hg Hh HR.
  destruct (Hv v eq_refl) as [-> | [st ->]]; clear Hv.
  - (* the hasher returned None *)
    cbn [truthy] in Hrun.
    rewrite (bind_ok incr_error_count _ _ _ tt eq_refl) in Hrun.
    destruct (row_encodable
                [Str file_path; Str "N/A"; Int size;
                 Str "Error - Could not read file"]) eqn:Hrow.
    + rewrite writerow_ok in Hrun by exact Hrow. injection Hrun as _ <-.
      unfold ledger. cbn [report file_count error_count].
      apply (tally_error exact (report s2) (file_count s2) (error_count s2)
               file_path (Str "N/A") (Int size) "Could not read file" HR2).
    + rewrite writerow_fails in Hrun by exact Hrow.
      cbn [is_Exception] in Hrun.
      apply handler_stuck in Hrun; [contradiction|].
      exact (path_not_encodable _ _ Hrow (sentinel_cells_encodable size)).
  - (* the hasher returned a digest *)
    rewrite MD5Facts.hexdigest_truthy in Hrun.
    rewrite (bind_ok incr_file_count _ _ _ tt eq_refl) in Hrun.
    set (s3 := mk_state (calls s2) (report s2) (stdout s2) (stderr s2)
                        (S (file_count s2)) (error_count s2)) in Hrun.
    set (progress := if verbose
                     then fc <- get_file_count ;;
                          print_progress E
                            ("[" ++ dec_nat fc ++ "] " ++ file_path)
                     else ret tt) in Hrun.
    pose proof (silent_bind get_file_count
                  (fun fc => print_progress E
                               ("[" ++ dec_nat fc ++ "] " ++ file_path))
                  silent_get_file_count
                  (fun fc => silent_print_progress E _) s3) as Hp1.
    assert (Hp : ledger (snd (progress s3)) = ledger s3).
    { unfold progress. destruct verbose; [exact Hp1 | reflexivity]. }
    destruct (progress s3) as [[[]|e] s4] eqn:Hprog; cbn [snd] in Hp.
    + rewrite (bind_ok _ _ _ _ _ Hprog) in Hrun.
      destruct (row_encodable
                  [Str file_path; Str (MD5.hexdigest st); Int size;
                   Str "Success"]) eqn:Hrow.
      * rewrite writerow_ok in Hrun by exact Hrow. injection Hrun as _ <-.
        apply ledger_inv in Hp as (Hr4 & Hf4 & He4).
        unfold ledger. cbn [report file_count error_count].
        rewrite Hr4, Hf4, He4. subst s3.
        cbn [report file_count error_count].
        apply (tally_success exact (report s2) (file_count s2)
                 (error_count s2) file_path (MD5.hexdigest st) (Int size)
                 HR2).
      * rewrite writerow_fails in Hrun by exact Hrow.
        cbn [is_Exception] in Hrun.
        apply handler_stuck in Hrun; [contradiction|].
        exact (path_not_encodable _ _ Hrow (digest_cells_encodable st size)).
    + (* the progress line was not printed *)
      rewrite (bind_raise _ _ _ _ _ Hprog) in Hrun.
      destruct (is_Exception e); [|discriminate].
      destruct exact.
      * exfalso. unfold progress in Hprog.
        destruct verbose; [|discriminate].
        rewrite (bind_ok get_file_count _ _ _ _ eq_refl) in Hprog.
        unfold print_progress in Hprog.
        rewrite (Hexact eq_refl eq_refl) in Hprog. discriminate.
      * apply (handler_tally E false file_path e s4 s' a); [|exact Hrun].
        rewrite Hp. subst s3. unfold ledger.
        cbn [report file_count error_count].
        now apply tally_counted.
Qed.

Lemma tally_scan_loop (E : env) (root_path : string) (verbose exact : bool) :
  (exact = true -> stdout_accepts E verbose) ->
  preserves (tally exact) (scan_loop E root_path verbose).
Proof.
  intros Hexact. unfold scan_loop. destruct (e_fs E root_path) as [n|].
  - apply preserves_os_walk. intros root ds fs.
    apply preserves_for_each. intros x. now apply tally_process_file.
  - apply preserves_silent, silent_step.
Qed.

(** A scan that returns has opened the report and run its loops to
    their end; what follows the loops only prints. *)
Lemma scan_directory_completed (E : env) (root_path output_csv : string)
    (verbose : bool) (s s' : state) :
  scan_directory E root_path output_csv verbose s = (Ok tt, s') ->
  exists s3,
    e_create_error E output_csv = None /\
    scan_loop E root_path verbose (loop_start root_path output_csv s) =
      (Ok tt, s3) /\
    ledger s' = ledger s3 /\
    stdout s' =
      (stdout s3 ++
       [dashes; "Scan complete!";
        ("Total files processed: " ++ dec_nat (file_count s3))%string;
        ("Errors encountered: " ++ dec_nat (error_count s3))%string;
        ("Results saved to: " ++ output_csv)%string])%list.
Proof.
  intros H. unfold scan_directory, create_output in H.
  rewrite (bind_ok (set_counts 0 0) _ s _ tt eq_refl) in H.
  set (s0 := mk_state _ _ _ _ 0 0) in H.
  set (outcome := match e_create_error E output_csv with
                  | Some e => Raise (raise_os e (Some output_csv))
                  | None => Ok tt
                  end) in H.
  pose proof (step_state E (Create output_csv) outcome s0) as Hst.
  pose proof (step_value E (Create output_csv) outcome s0) as Hv.
  destruct (step E (Create output_csv) outcome s0) as [[[]|e] s1] eqn:Hc.
  2:{ rewrite (bind_raise _ _ s0 s1 e) in H; [discriminate|].
      now rewrite (bind_raise _ _ _ _ _ Hc). }
  cbn [fst snd] in Hst, Hv. subst s1.
  assert (Hcreate : e_create_error E output_csv = None).
  { subst outcome. destruct (e_create_error E output_csv); [|reflexivity].
    destruct Hv; discriminate. }
  rewrite (bind_ok _ _ s0 (mk_state (Create output_csv :: calls s0) []
                             (stdout s0) (stderr s0) 0 0) tt) in H
    by (now rewrite (bind_ok _ _ _ _ _ Hc)).
  rewrite (bind_ok (writerow E header) _ _ _ tt (writerow_header E _)) in H.
  rewrite (bind_ok (print _) _ _ _ tt eq_refl) in H.
  rewrite (bind_ok (print _) _ _ _ tt eq_refl) in H.
  rewrite (bind_ok (print _) _ _ _ tt eq_refl) in H.
  cbn [calls report stdout stderr file_count error_count app] in H.
  subst s0. cbn [calls report stdout stderr file_count error_count] in H.
  change (mk_state _ _ _ _ _ _) with (loop_start root_path output_csv s) in H.
  destruct (scan_loop E root_path verbose (loop_start root_path output_csv s))
    as [[[]|e] s3] eqn:Hloop.
  2:{ rewrite (bind_raise _ _ _ _ _ Hloop) in H. discriminate. }
  rewrite (bind_ok _ _ _ _ _ Hloop) in H.
  exists s3. split; [exact Hcreate|]. split; [reflexivity|].
  unfold bind in H.
  cbn [print get_file_count get_error_count calls report stdout stderr
       file_count error_count] in H.
  injection H as <-. split; [reflexivity|].
  cbn [stdout]. repeat rewrite <- app_assoc. reflexivity.
Qed.

Lemma tally_start (exact : bool) (root_path output_csv : string) (s : state) :
  tally exact (ledger (loop_start root_path output_csv s)).
Proof. exists []. repeat split. cbn. lia. Qed.

(** X5. The summary agrees with the report.  For every scan that runs
    to completion, on any tree, with any failures inside it: the report
    is the header followed by rows of which exactly [error_count] have
    a status other than [Success]; the rows with the status [Success]
    are at most [file_count], and exactly [file_count] when every
    progress line of [-v] was printed; the totals printed last are the
    two counters. *)
Theorem summary_agrees_with_report (E : env) (root_path output_csv : string)
    (verbose : bool) (s s' : state) :
  scan_directory E root_path output_csv verbose s = (Ok tt, s') ->
  exists rows earlier,
    report s' = header :: rows /\
    List.length rows = (count_status "Success" rows + error_count s')%nat /\
    (count_status "Success" rows <= file_count s')%nat /\
    (stdout_accepts E verbose ->
     count_status "Success" rows = file_count s') /\
    stdout s' =
      (earlier ++
       [dashes; "Scan complete!";
        ("Total files processed: " ++ dec_nat (file_count s'))%string;
        ("Errors encountered: " ++
         dec_nat (List.length rows - count_status "Success" rows))%string;
        ("Results saved to: " ++ output_csv)%string])%list.
Proof.
  intros H.
  destruct (scan_directory_completed E root_path output_csv verbose s s' H)
    as [s3 [_ [Hloop [Hled Hout]]]].
  destruct (tally_scan_loop E root_path verbose false
              ltac:(discriminate) _ _ _
              (tally_start false root_path output_csv s) Hloop)
    as [rows (Hrep & Hlen & Hle & _)].
  cbn [ledger fst snd] in Hrep, Hlen, Hle.
  unfold ledger in Hled. injection Hled as Hr Hf He.
  exists rows, (stdout s3). rewrite Hr, Hf, He, Hout.
  split; [exact Hrep|]. split; [exact Hlen|]. split; [exact Hle|]. split.
  - intros Hacc.
    destruct (tally_scan_loop E root_path verbose true
                (fun _ => Hacc) _ _ _
                (tally_start true root_path output_csv s) Hloop)
      as [rows' (Hrep' & _ & _ & Heq)].
    cbn [ledger fst snd] in Hrep', Heq.
    rewrite Hrep in Hrep'. injection Hrep' as <-. now apply Heq.
  - now replace (List.length rows - count_status "Success" rows)%nat
      with (error_count s3) by lia.
Qed.

Lemma summary_agrees_with_report_witness :
  exists rows earlier,
    report (snd (scan_directory (sdcard BeforeSize) "/sdcard" "/tmp/scan.csv"
                                true initial_state)) = header :: rows /\
    List.length rows = (count_status "Success" rows + 1)%nat /\
    (count_status "Success" rows <= 9)%nat /\
    (stdout_accepts (sdcard BeforeSize) true ->
     count_status "Success" rows = 9%nat) /\
    stdout (snd (scan_directory (sdcard BeforeSize) "/sdcard" "/tmp/scan.csv"
                                true initial_state)) =
      (earlier ++
       [dashes; "Scan complete!";
        "Total files processed: 9";
        ("Errors encountered: " ++
         dec_nat (List.length rows - count_status "Success" rows))%string;
        "Results saved to: /tmp/scan.csv"])%list.
Proof.
  apply (summary_agrees_with_report (sdcard BeforeSize) "/sdcard"
           "/tmp/scan.csv" true initial_state).
  vm_compute. reflexivity.
Defined.
(* ------------------------------------------------------------------ *)
(** ** When the report cannot be opened *)

Lemma scan_directory_no_report (E : env) (root_path output_csv : string)
    (verbose : bool) (s : state) (e : oserr) :
  e_sigint E = None ->
  e_create_error E output_csv = Some e ->
  scan_directory E root_path output_csv verbose s =
  (Raise (raise_os e (Some output_csv)),
   mk_state (Create output_csv :: calls s) (report s) (stdout s) (stderr s)
            0 0).
Proof.
  intros quiet Hcreate. unfold scan_directory, create_output.
  rewrite (bind_ok (set_counts 0 0) _ s _ tt eq_refl).
  apply bind_raise. apply bind_raise.
  rewrite step_quiet by assumption. now rewrite Hcreate.
Qed.

(** X6. When the report cannot be opened for writing, [main] touches
    nothing on the device: after the root path is settled the only call
    is the attempt to create the report, no directory is listed and no
    file is sized, opened or read; the report keeps the content it had,
    not even the banner is printed, the one line printed is
    [Fatal error: <reason>] and the process exits with status 1. *)
Theorem report_cannot_be_opened (E : env) (a : args) (s s1 : state)
    (paths : string * string) (e : oserr) :
  e_sigint E = None ->
  resolve E a s = (Ok paths, s1) ->
  e_create_error E (snd paths) = Some e ->
  exists s',
    main E a s = (Raise (SystemExit 1), s') /\
    calls s' = Create (snd paths) :: calls s1 /\
    report s' = report s1 /\
    stdout s' =
      (stdout s1 ++
       [(newline ++ "Fatal error: " ++
         str_exn (raise_os e (Some (snd paths))))%string])%list /\
    stderr s' = stderr s1.
Proof.
  intros quiet Hres Hcreate. unfold main.
  rewrite (bind_ok _ _ _ _ _ Hres). unfold try_except.
  rewrite (scan_directory_no_report E (fst paths) (snd paths) (arg_verbose a)
             s1 e quiet Hcreate).
  eexists. split; [reflexivity|]. repeat split.
Qed.

(** A machine like [quiet_env] on which no report can be created. *)
Definition read_only_env (root : string) (tree : node) : env :=
  mk_env (fun p => if p =? root then Some tree else None)
         None (fun _ => Some EACCES) None "20240101_120000" (fun p => p) 1000
         (fun p => p) (fun _ => None) surrogate_message.

Lemma report_cannot_be_opened_witness :
  exists s',
    main (read_only_env "/mnt" small_tree)
         (mk_args (Some "/mnt") (Some "/out.csv") false) initial_state =
      (Raise (SystemExit 1), s') /\
    calls s' = [Create "/out.csv"; Exists "/mnt"] /\
    report s' = [] /\
    stdout s' =
      [(newline ++
        "Fatal error: [Errno 13] Permission denied: '/out.csv'")%string] /\
    stderr s' = [].
Proof.
  apply (report_cannot_be_opened (read_only_env "/mnt" small_tree)
           (mk_args (Some "/mnt") (Some "/out.csv") false) initial_state
           (mk_state [Exists "/mnt"] [] [] [] 0 0) ("/mnt", "/out.csv") EACCES);
    reflexivity.
Defined.

(* ------------------------------------------------------------------ *)
(** ** The verbose flag *)

(** Two states that differ at most in what was printed on the standard
    output. *)
Definition same_but_stdout (s1 s2 : state) : Prop :=
  calls s1 = calls s2 /\ report s1 = report s2 /\ stderr s1 = stderr s2 /\
  file_count s1 = file_count s2 /\ error_count s1 = error_count s2.

(** From such states the two computations end alike, in such states. *)
Definition agree {A} (m1 m2 : M A) : Prop :=
  forall s1 s2, same_but_stdout s1 s2 ->
    fst (m1 s1) = fst (m2 s2) /\ same_but_stdout (snd (m1 s1)) (snd (m2 s2)).

Section Agree.

Context {A B : Type}.

Lemma agree_ret (a : A) : agree (ret a) (ret a).
Proof. intros s1 s2 H. split; [reflexivity | exact H]. Qed.

Lemma agree_raise (e : exn) : agree (@raise A e) (raise e).
Proof. intros s1 s2 H. split; [reflexivity | exact H]. Qed.

Lemma agree_bind (m1 m2 : M A) (k1 k2 : A -> M B) :
  agree m1 m2 -> (forall a, agree (k1 a) (k2 a)) ->
  agree (bind m1 k1) (bind m2 k2).
Proof.
  intros Hm Hk s1 s2 H. unfold bind. destruct (Hm s1 s2 H) as [Hv Hs].
  destruct (m1 s1) as [[a|e] s1'], (m2 s2) as [[a'|e'] s2'];
    cbn [fst snd] in *; try discriminate.
  - injection Hv as <-. now apply Hk.
  - injection Hv as <-. split; [reflexivity | assumption].
Qed.

Lemma agree_try (b1 b2 : M A) (classes : exn -> bool) (h1 h2 : exn -> M A) :
  agree b1 b2 -> (forall e, agree (h1 e) (h2 e)) ->
  agree (try_except b1 classes h1) (try_except b2 classes h2).
Proof.
  intros Hb Hh s1 s2 H. unfold try_except. destruct (Hb s1 s2 H) as [Hv Hs].
  destruct (b1 s1) as [[a|e] s1'], (b2 s2) as [[a'|e'] s2'];
    cbn [fst snd] in *; try discriminate.
  - split; assumption.
  - injection Hv as <-. destruct (classes e); [now apply Hh|].
    split; [reflexivity | assumption].
Qed.

End Agree.

Lemma agree_step (E : env) {A} (ev : event) (o : result A) :
  agree (step E ev o) (step E ev o).
Proof.
  intros s1 s2 (Hc & Hr & He & Hf & Hn). unfold step. rewrite Hc.
  destruct (e_sigint E) as [k|];
    [destruct (k =? List.length (calls s2))%nat|];
    (split; [reflexivity|]); unfold same_but_stdout; cbn; now rewrite Hc.
Qed.

Lemma agree_print (l1 l2 : string) : agree (print l1) (print l2).
Proof. intros s1 s2 H. split; [reflexivity | exact H]. Qed.

Lemma agree_print_ret (l : string) : agree (print l) (ret tt).
Proof. intros s1 s2 H. split; [reflexivity | exact H]. Qed.

Lemma agree_print_err (l : string) : agree (print_err l) (print_err l).
Proof.
  intros s1 s2 (Hc & Hr & He & Hf & Hn). split; [reflexivity|].
  unfold same_but_stdout. cbn. now rewrite He.
Qed.

Lemma agree_writerow (E : env) (r : row) :
  agree (writerow E r) (writerow E r).
Proof.
  intros s1 s2 (Hc & Hr & He & Hf & Hn). unfold writerow.
  destruct (row_encodable r); (split; [reflexivity|]);
    unfold same_but_stdout; cbn; now rewrite ?Hr.
Qed.

Lemma agree_truncate_report : agree truncate_report truncate_report.
Proof.
  intros s1 s2 (Hc & Hr & He & Hf & Hn). split; [reflexivity|].
  unfold same_but_stdout. now cbn.
Qed.

Lemma agree_set_counts (fc ec : nat) :
  agree (set_counts fc ec) (set_counts fc ec).
Proof.
  intros s1 s2 (Hc & Hr & He & Hf & Hn). split; [reflexivity|].
  unfold same_but_stdout. now cbn.
Qed.

Lemma agree_incr_file_count : agree incr_file_count incr_file_count.
Proof.
  intros s1 s2 (Hc & Hr & He & Hf & Hn). split; [reflexivity|].
  unfold same_but_stdout. cbn. now rewrite Hf.
Qed.

Lemma agree_incr_error_count : agree incr_error_count incr_error_count.
Proof.
  intros s1 s2 (Hc & Hr & He & Hf & Hn). split; [reflexivity|].
  unfold same_but_stdout. cbn. now rewrite Hn.
Qed.

Lemma agree_get_file_count : agree get_file_count get_file_count.
Proof.
  intros s1 s2 H. split; [|exact H].
  destruct H as (_ & _ & _ & Hf & _). cbn. now rewrite Hf.
Qed.

Lemma agree_get_error_count : agree get_error_count get_error_count.
Proof.
  intros s1 s2 H. split; [|exact H].
  destruct H as (_ & _ & _ & _ & Hn). cbn. now rewrite Hn.
Qed.

Create HintDb agree.
#[local] Hint Resolve agree_ret agree_raise agree_step agree_print
  agree_print_err agree_writerow agree_truncate_report agree_set_counts
  agree_incr_file_count agree_incr_error_count agree_get_file_count
  agree_get_error_count : agree.

Lemma agree_for_each {A} (xs : list A) (b1 b2 : A -> M unit) :
  (forall x, agree (b1 x) (b2 x)) -> agree (for_each xs b1) (for_each xs b2).
Proof.
  intros Hb. induction xs as [|x xs IH]; cbn [for_each].
  - apply agree_ret.
  - apply agree_bind; [apply Hb | intros _; exact IH].
Qed.

Lemma agree_read_chunks (E : env) (fuel n : nat) :
  forall hd acc,
    agree (read_chunks E fuel n hd acc) (read_chunks E fuel n hd acc).
Proof.
  induction fuel as [|fuel IH]; intros hd acc; cbn [read_chunks].
  - apply agree_raise.
  - apply agree_bind; [unfold read; apply agree_step|].
    intros [chunk hd']. cbn [fst snd].
    destruct chunk; [apply agree_ret | apply IH].
Qed.

Lemma agree_calculate_md5_with (E : env) (n : nat) (p : string) (f : file) :
  agree (calculate_md5_with E n p f) (calculate_md5_with E n p f).
Proof.
  unfold calculate_md5_with.
  apply agree_bind; [apply agree_step|]. intros _.
  apply agree_try.
  - apply agree_bind; [unfold open_rb; apply agree_step|]. intros hd.
    apply agree_bind; [apply agree_read_chunks|]. intros m. apply agree_ret.
  - intros e. apply agree_bind; auto with agree.
Qed.

(** A progress line that the standard output takes leaves no other
    trace. *)
Lemma agree_progress (E : env) (v1 v2 : bool) (line : nat -> string) :
  (forall l, e_stdout_error E l = None) ->
  agree (if v1 then fc <- get_file_count ;; print_progress E (line fc)
         else ret tt)
        (if v2 then fc <- get_file_count ;; print_progress E (line fc)
         else ret tt).
Proof.
  intros Hacc s1 s2 H.
  assert (Hp : forall s,
             (fc <- get_file_count ;; print_progress E (line fc)) s =
             print (line (file_count s)) s).
  { intros s. unfold bind. cbn [get_file_count]. now apply print_progress_ok. }
  destruct v1, v2; rewrite ?Hp; (split; [reflexivity | exact H]).
Qed.

Lemma agree_process_file (E : env) (v1 v2 : bool) (root : string)
    (entry : string * file) :
  (forall l, e_stdout_error E l = None) ->
  agree (process_file E v1 root entry) (process_file E v2 root entry).
Proof.
  intros Hacc. unfold process_file. apply agree_try.
  - apply agree_bind; [unfold getsize; apply agree_step|]. intros size.
    apply agree_bind; [apply agree_calculate_md5_with|]. intros md5_hash.
    destruct (truthy md5_hash).
    + apply agree_bind; [apply agree_incr_file_count|]. intros _.
      apply agree_bind; [|intros _; apply agree_writerow].
      exact (agree_progress E v1 v2
               (fun fc => ("[" ++ dec_nat fc ++ "] " ++
                           os_path_join root (fst entry))%string) Hacc).
    + apply agree_bind; auto with agree.
  - intros e. apply agree_bind; [apply agree_incr_error_count|]. intros _.
    apply agree_bind; auto with agree.
Qed.

Lemma agree_os_walk (E : env)
    (b1 b2 : string -> list string -> list (string * file) -> M unit) :
  (forall root ds fs, agree (b1 root ds fs) (b2 root ds fs)) ->
  forall n top, agree (os_walk E b1 top n) (os_walk E b2 top n).
Proof.
  intros Hbody n.
  induction n as [f | listable entries IH] using node_induction; intros top.
  - apply agree_step.
  - destruct listable; [|apply agree_step].
    cbn [os_walk].
    apply agree_bind; [apply agree_step|]. intros _.
    apply agree_bind; [apply Hbody|]. intros _.
    induction IH as [|[name d] es Hd _ IHes].
    + apply agree_ret.
    + destruct d as [f | l es'].
      * exact IHes.
      * apply agree_bind; [apply Hd | intros _; exact IHes].
Qed.

Lemma agree_scan_directory (E : env) (root_path output_csv : string)
    (v1 v2 : bool) :
  (forall l, e_stdout_error E l = None) ->
  agree (scan_directory E root_path output_csv v1)
        (scan_directory E root_path output_csv v2).
Proof.
  intros Hacc. unfold scan_directory.
  apply agree_bind; [apply agree_set_counts|]. intros _.
  apply agree_bind.
  { unfold create_output. apply agree_bind; auto with agree. }
  intros _.
  apply agree_bind; [apply agree_writerow|]. intros _.
  do 3 (apply agree_bind; [apply agree_print|]; intros _).
  apply agree_bind.
  { unfold scan_loop. destruct (e_fs E root_path) as [n|];
      [|apply agree_step].
    apply agree_os_walk. intros root ds fs.
    apply agree_for_each. intros x. now apply agree_process_file. }
  intros _.
  do 2 (apply agree_bind; [apply agree_print|]; intros _).
  apply agree_bind; [apply agree_get_file_count|]. intros fc.
  apply agree_bind; [apply agree_print|]. intros _.
  apply agree_bind; [apply agree_get_error_count|]. intros ec.
  apply agree_bind; [apply agree_print|]. intros _.
  apply agree_print.
Qed.

(** X7. The verbose flag changes nothing but the standard output.
    When the standard output takes every progress line, whatever fails
    on the device and whenever the user interrupts, the scan with [-v]
    and the scan without it end the same way (both return or both raise
    the same exception), make the same calls on the device in the same
    order, leave the same report and the same two counters, and print
    the same lines on the error stream. *)
Theorem verbose_only_prints (E : env) (root_path output_csv : string)
    (s : state) :
  (forall line, e_stdout_error E line = None) ->
  let loud := scan_directory E root_path output_csv true s in
  let quiet := scan_directory E root_path output_csv false s in
  fst loud = fst quiet /\
  calls (snd loud) = calls (snd quiet) /\
  report (snd loud) = report (snd quiet) /\
  stderr (snd loud) = stderr (snd quiet) /\
  file_count (snd loud) = file_count (snd quiet) /\
  error_count (snd loud) = error_count (snd quiet).
Proof.
  intros Hacc. cbv zeta.
  destruct (agree_scan_directory E root_path output_csv true false Hacc s s)
    as [Hv Hs].
  - repeat split.
  - split; [exact Hv | exact Hs].
Qed.

Lemma verbose_only_prints_witness :
  let E := quiet_env "/mnt" mixed_tree in
  let loud := scan_directory E "/mnt" "/tmp/scan.csv" true initial_state in
  let quiet := scan_directory E "/mnt" "/tmp/scan.csv" false initial_state in
  fst loud = fst quiet /\
  calls (snd loud) = calls (snd quiet) /\
  report (snd loud) = report (snd quiet) /\
  stderr (snd loud) = stderr (snd quiet) /\
  file_count (snd loud) = file_count (snd quiet) /\
  error_count (snd loud) = error_count (snd quiet).
Proof.
  apply (verbose_only_prints (quiet_env "/mnt" mixed_tree) "/mnt"
           "/tmp/scan.csv" initial_state).
  intros line. reflexivity.
Defined.

(* ------------------------------------------------------------------ *)
(** ** Where the reported paths lie *)

Lemma prefix_refl_app (a b : string) : prefix a (a ++ b) = true.
Proof.
  induction a as [|c a IH]; [now destruct b|]. cbn.
  destruct (ascii_dec c c); [exact IH | congruence].
Qed.

Lemma prefix_trans (a b c : string) :
  prefix a b = true -> prefix b c = true -> prefix a c = true.
Proof.
  revert b c. induction a as [|x a IH]; intros b c Hab Hbc; [now destruct c|].
  destruct b as [|y b]; [discriminate|]. destruct c as [|z c]; [discriminate|].
  cbn in *. destruct (ascii_dec x y) as [->|]; [|discriminate].
  destruct (ascii_dec y z) as [->|]; [|discriminate].
  destruct (ascii_dec z z); [|congruence]. now apply (IH b c).
Qed.

Lemma prefix_refl (a : string) : prefix a a = true.
Proof.
  induction a as [|c a IH]; [reflexivity|]. cbn.
  destruct (ascii_dec c c); [exact IH | congruence].
Qed.

Lemma os_path_join_prefix (a b : string) :
  prefix "/" b = false -> prefix a (os_path_join a b) = true.
Proof.
  intros H. unfold os_path_join. rewrite H.
  destruct ((a =? "") || ends_with_sep a); apply prefix_refl_app.
Qed.

(** No name in the tree starts with a slash (a directory entry never
    holds one). *)
Fixpoint plain_names (n : node) : bool :=
  match n with
  | File _ => true
  | Dir _ entries =>
      forallb (fun entry => negb (prefix "/" (fst entry)) &&
                            plain_names (snd entry)) entries
  end.

Lemma files_names_plain (es : list (string * node)) :
  forallb (fun entry => negb (prefix "/" (fst entry)) &&
                        plain_names (snd entry)) es = true ->
  forall x, In x (files es) -> prefix "/" (fst x) = false.
Proof.
  induction es as [|[name [f|l es']] es IH]; cbn [forallb files fst snd];
    intros H x Hin; [contradiction | |];
    apply andb_true_iff in H as [H1 H2]; [|now apply IH].
  apply andb_true_iff in H1 as [H1 _]. apply negb_true_iff in H1.
  destruct Hin as [<- | Hin]; [exact H1 | now apply IH].
Qed.

(** The report is the header followed by rows whose path starts with
    [root_path]. *)
Definition under (root_path : string) (l : list row * nat * nat) : Prop :=
  exists rows,
    fst (fst l) = header :: rows /\
    Forall (fun r => prefix root_path (field_path r) = true) rows.

Definition stays_under {A} (root_path : string) (m : M A) : Prop :=
  sound (under root_path) m (fun _ => True).

Lemma stays_under_silent {A} (root_path : string) (m : M A) :
  silent m -> stays_under root_path m.
Proof. intros H. apply sound_silent; [assumption | intros s a _; exact I]. Qed.

Lemma stays_under_bind {A B} (root_path : string) (m : M A) (k : A -> M B) :
  stays_under root_path m -> (forall a, stays_under root_path (k a)) ->
  stays_under root_path (bind m k).
Proof. intros Hm Hk. eapply sound_bind; [exact Hm | intros a _; apply Hk]. Qed.

Lemma stays_under_counter (root_path : string) (m : M unit) :
  (forall s, report (snd (m s)) = report s) -> stays_under root_path m.
Proof.
  intros H s [rows [Hrep Hall]]. split; [|trivial].
  exists rows. cbn [ledger fst] in *. now rewrite H.
Qed.

Lemma stays_under_writerow (E : env) (root_path p : string) (rest : row) :
  prefix root_path p = true ->
  stays_under root_path (writerow E (Str p :: rest)).
Proof.
  intros Hp s HR. split; [|trivial]. unfold writerow.
  destruct (row_encodable (Str p :: rest)); [|exact HR].
  destruct HR as [rows [Hrep Hall]].
  exists (rows ++ [Str p :: rest])%list. cbn [snd ledger fst report] in *.
  split.
  - now rewrite Hrep.
  - apply Forall_app. split; [assumption | now constructor].
Qed.

Lemma stays_under_process_file (E : env) (root_path : string) (verbose : bool)
    (root : string) (entry : string * file) :
  prefix root_path (os_path_join root (fst entry)) = true ->
  stays_under root_path (process_file E verbose root entry).
Proof.
  intros Hp. unfold process_file. apply sound_try.
  - apply stays_under_bind; [apply stays_under_silent, silent_step|].
    intros size.
    apply stays_under_bind;
      [apply stays_under_silent, silent_calculate_md5_with|].
    intros md5_hash. destruct (truthy md5_hash).
    + apply stays_under_bind; [now apply stays_under_counter|]. intros _.
      apply stays_under_bind.
      { destruct verbose; [|apply stays_under_silent, silent_ret].
        apply stays_under_silent, silent_bind; auto with silent. }
      intros _. now apply stays_under_writerow.
    + apply stays_under_bind; [now apply stays_under_counter|]. intros _.
      now apply stays_under_writerow.
  - intros e.
    apply stays_under_bind; [now apply stays_under_counter|]. intros _.
    apply stays_under_bind; [apply stays_under_silent, silent_print_err|].
    intros _. now apply stays_under_writerow.
Qed.

Lemma sound_for_each_in {A} (R : list row * nat * nat -> Prop) (xs : list A)
    (body : A -> M unit) :
  (forall x, In x xs -> sound R (body x) (fun _ => True)) ->
  sound R (for_each xs body) (fun _ => True).
Proof.
  induction xs as [|x xs IH]; intros Hb; cbn [for_each].
  - intros s HR. split; [assumption | trivial].
  - eapply sound_bind; [apply Hb; now left|].
    intros _ _. apply IH. intros y Hy. apply Hb. now right.
Qed.

Lemma stays_under_os_walk (E : env) (root_path : string) (verbose : bool)
    (n : node) :
  forall top,
    plain_names n = true ->
    prefix root_path top = true ->
    stays_under root_path
      (os_walk E (fun root _ fs => for_each fs (process_file E verbose root))
               top n).
Proof.
  induction n as [f | l es IH] using node_induction; intros top Hn Htop.
  - apply stays_under_silent, silent_step.
  - destruct l; [|apply stays_under_silent, silent_step].
    cbn [os_walk]. cbn [plain_names] in Hn.
    apply stays_under_bind; [apply stays_under_silent, silent_step|].
    intros _. apply stays_under_bind.
    { apply sound_for_each_in. intros x Hx.
      apply stays_under_process_file.
      eapply prefix_trans; [exact Htop|].
      apply os_path_join_prefix. now apply (files_names_plain es). }
    intros _.
    induction IH as [|[name d] es' Hd _ IHes].
    + apply stays_under_silent, silent_ret.
    + cbn [forallb fst snd] in Hn.
      apply andb_true_iff in Hn as [Hn1 Hn2].
      apply andb_true_iff in Hn1 as [Hname Hd'].
      apply negb_true_iff in Hname. cbn [snd] in Hd.
      destruct d as [f | l' es''].
      * now apply IHes.
      * apply stays_under_bind; [|intros _; now apply IHes].
        apply Hd; [exact Hd'|].
        eapply prefix_trans; [exact Htop|]. now apply os_path_join_prefix.
Qed.

Lemma stays_under_scan_loop (E : env) (root_path : string) (verbose : bool) :
  (forall n, e_fs E root_path = Some n -> plain_names n = true) ->
  stays_under root_path (scan_loop E root_path verbose).
Proof.
  intros Hplain. unfold scan_loop.
  destruct (e_fs E root_path) as [n|];
    [|apply stays_under_silent, silent_step].
  apply stays_under_os_walk; [now apply Hplain | apply prefix_refl].
Qed.

(** X8. Every path in the report lies under the root, however the scan
    ends.  When no name in the tree starts with a slash, either the
    report could not be opened and nothing was written, or the report
    is the header followed by rows whose path starts with the root path
    as it was given. *)
Theorem reported_paths_under_root (E : env) (root_path output_csv : string)
    (verbose : bool) (s : state) :
  (forall n, e_fs E root_path = Some n -> plain_names n = true) ->
  let s' := snd (scan_directory E root_path output_csv verbose s) in
  report s' = report s \/
  exists rows,
    report s' = header :: rows /\
    Forall (fun r => prefix root_path (field_path r) = true) rows.
Proof.
  intros Hplain. cbv zeta. unfold scan_directory, create_output.
  rewrite (bind_ok (set_counts 0 0) _ s _ tt eq_refl).
  set (s0 := mk_state _ _ _ _ 0 0).
  set (create := step E (Create output_csv) _).
  pose proof (silent_step E (Create output_csv)
                (match e_create_error E output_csv with
                 | Some e => Raise (raise_os e (Some output_csv))
                 | None => Ok tt
                 end) s0) as Hsil.
  fold create in Hsil.
  destruct (create s0) as [[[]|e] s1] eqn:Hcreate; cbn [snd] in Hsil.
  - right.
    rewrite (bind_ok (create ;; truncate_report) _ s0
               (mk_state (calls s1) [] (stdout s1) (stderr s1)
                         (file_count s1) (error_count s1)) tt)
      by (now rewrite (bind_ok _ _ _ _ _ Hcreate)).
    rewrite (bind_ok (writerow E header) _ _ _ tt (writerow_header E _)).
    set (s2 := mk_state _ _ _ _ _ _).
    match goal with
    | |- context [snd (?m s2)] =>
        assert (Hk : stays_under root_path m)
    end.
    { repeat (apply stays_under_bind;
              [first [ apply stays_under_silent; solve [auto with silent]
                     | now apply stays_under_scan_loop ] | intros ?]).
      apply stays_under_silent; auto with silent. }
    destruct (Hk s2) as [[rows [Hrep Hall]] _].
    + exists []. split; [reflexivity | constructor].
    + exists rows. split; assumption.
  - left.
    rewrite (bind_raise (create ;; truncate_report) _ s0 s1 e)
      by (now rewrite (bind_raise _ _ _ _ _ Hcreate)).
    unfold ledger in Hsil. injection Hsil as H1 _ _. exact H1.
Qed.

Lemma reported_paths_under_root_witness :
  let s' := snd (scan_directory (quiet_env "/mnt" mixed_tree) "/mnt"
                                "/tmp/scan.csv" true initial_state) in
  report s' = report initial_state \/
  exists rows,
    report s' = header :: rows /\
    Forall (fun r => prefix "/mnt" (field_path r) = true) rows.
Proof.
  apply (reported_paths_under_root (quiet_env "/mnt" mixed_tree) "/mnt"
           "/tmp/scan.csv" true initial_state).
  intros n Hn. vm_compute in Hn. injection Hn as <-. reflexivity.
Defined.
(* ------------------------------------------------------------------ *)
(** ** Finding the device: [find_android_mount_point] *)

(** What [find_android_mount_point] asks of the machine. *)
Record host : Type := mk_host {
  getuid : nat;                               (* [os.getuid()] *)
  environ_USER : option string;               (* [os.environ.get('USER')] *)
  expanduser : string -> string;              (* [os.path.expanduser] *)
  path_exists : string -> bool;               (* [os.path.exists] *)
  listdir : string -> result (list string);   (* [os.listdir], may raise *)
  ismount : string -> bool                    (* [os.path.ismount] *)
}.

(** [str.lower()] on a name of ASCII characters. *)
Definition lower_ascii (c : ascii) : ascii :=
  let n := nat_of_ascii c in
  if ((65 <=? n) && (n <=? 90))%nat then ascii_of_nat (n + 32) else c.

Fixpoint lower (s : string) : string :=
  match s with
  | EmptyString => EmptyString
  | String c rest => String (lower_ascii c) (lower rest)
  end.

(** [needle in hay] for two texts. *)
Fixpoint contains (needle hay : string) : bool :=
  prefix needle hay ||
  match hay with
  | EmptyString => false
  | String _ rest => contains needle rest
  end.

(** [for entry in entries: if 'mtp' in entry.lower(): return join(dir, entry)] *)
Fixpoint first_mtp (dir : string) (entries : list string) : option string :=
  match entries with
  | [] => None
  | entry :: rest =>
      if contains "mtp" (lower entry) then Some (os_path_join dir entry)
      else first_mtp dir rest
  end.

Section Detection.

Variable H : host.

(** [for entry in entries: full_path = join(dir, entry);
     if os.path.ismount(full_path): return full_path] *)
Fixpoint first_mount (dir : string) (entries : list string) : option string :=
  match entries with
  | [] => None
  | entry :: rest =>
      let full_path := os_path_join dir entry in
      if ismount H full_path then Some full_path else first_mount dir rest
  end.

(** One of the three blocks of the function: when [dir] exists it is
    listed, an error of the listing propagates, the first entry that
    [pick] accepts is returned, and the function goes on [otherwise]. *)
Definition probe (dir : string) (pick : string -> list string -> option string)
    (otherwise : result (option string)) : result (option string) :=
  if path_exists H dir then
    match listdir H dir with
    | Raise e => Raise e
    | Ok entries =>
        match pick dir entries with
        | Some full_path => Ok (Some full_path)
        | None => otherwise
        end
    end
  else otherwise.

Definition gvfs_path : string := "/run/user/" ++ dec_nat (getuid H) ++ "/gvfs".

Definition legacy_gvfs : string := expanduser H "~/.gvfs".

Definition media_path : string :=
  let username := match environ_USER H with Some u => u | None => "" end in
  "/media/" ++ username.

Definition find_android_mount_point : result (option string) :=
  probe gvfs_path first_mtp
    (probe legacy_gvfs first_mtp
       (probe media_path first_mount
          (Ok None))).

End Detection.

Lemma first_mtp_found (dir : string) (entries : list string) (p : string) :
  first_mtp dir entries = Some p ->
  exists before entry after,
    entries = (before ++ entry :: after)%list /\
    Forall (fun x => contains "mtp" (lower x) = false) before /\
    contains "mtp" (lower entry) = true /\
    p = os_path_join dir entry.
Proof.
  induction entries as [|x entries IH]; [discriminate|]. cbn [first_mtp].
  destruct (contains "mtp" (lower x)) eqn:Hx; intros Hp.
  - injection Hp as <-. exists [], x, entries. now repeat split.
  - destruct (IH Hp) as (before & entry & after & -> & Hb & He & ->).
    exists (x :: before), entry, after. repeat split; auto.
Qed.

Lemma first_mtp_none (dir : string) (entries : list string) :
  first_mtp dir entries = None ->
  Forall (fun x => contains "mtp" (lower x) = false) entries.
Proof.
  induction entries as [|x entries IH]; [constructor|]. cbn [first_mtp].
  destruct (contains "mtp" (lower x)) eqn:Hx; [discriminate|].
  intros Hp. constructor; auto.
Qed.

Lemma first_mtp_first (dir : string) (before after : list string)
    (entry : string) :
  Forall (fun x => contains "mtp" (lower x) = false) before ->
  contains "mtp" (lower entry) = true ->
  first_mtp dir (before ++ entry :: after) = Some (os_path_join dir entry).
Proof.
  intros Hb He. induction Hb as [|x before Hx _ IH]; cbn [app first_mtp].
  - now rewrite He.
  - now rewrite Hx.
Qed.

Lemma first_mount_found (H : host) (dir : string) (entries : list string)
    (p : string) :
  first_mount H dir entries = Some p ->
  exists before entry after,
    entries = (before ++ entry :: after)%list /\
    Forall (fun x => ismount H (os_path_join dir x) = false) before /\
    ismount H p = true /\
    p = os_path_join dir entry.
Proof.
  induction entries as [|x entries IH]; [discriminate|]. cbn [first_mount].
  destruct (ismount H (os_path_join dir x)) eqn:Hx; intros Hp.
  - injection Hp as <-. exists [], x, entries. now repeat split.
  - destruct (IH Hp) as (before & entry & after & -> & Hb & He & ->).
    exists (x :: before), entry, after. repeat split; auto.
Qed.

Lemma first_mount_none (H : host) (dir : string) (entries : list string) :
  first_mount H dir entries = None ->
  Forall (fun x => ismount H (os_path_join dir x) = false) entries.
Proof.
  induction entries as [|x entries IH]; [constructor|]. cbn [first_mount].
  destruct (ismount H (os_path_join dir x)) eqn:Hx; [discriminate|].
  intros Hp. constructor; auto.
Qed.

(** What a block that returns a path has seen. *)
Definition picked_from (H : host) (dir : string)
    (accepts : string -> bool) (p : string) : Prop :=
  path_exists H dir = true /\
  exists before entry after,
    listdir H dir = Ok (before ++ entry :: after)%list /\
    Forall (fun x => accepts x = false) before /\
    accepts entry = true /\
    p = os_path_join dir entry.

(** What a block that falls through has seen. *)
Definition nothing_in (H : host) (dir : string) (accepts : string -> bool)
    : Prop :=
  path_exists H dir = false \/
  exists entries,
    listdir H dir = Ok entries /\ Forall (fun x => accepts x = false) entries.

Definition is_mtp (entry : string) : bool := contains "mtp" (lower entry).

Definition is_mount_in (H : host) (dir : string) (entry : string) : bool :=
  ismount H (os_path_join dir entry).

Lemma probe_cases (H : host) (dir : string)
    (pick : string -> list string -> option string)
    (accepts : string -> bool) (otherwise r : result (option string)) :
  (forall entries p,
     pick dir entries = Some p ->
     exists before entry after,
       entries = (before ++ entry :: after)%list /\
       Forall (fun x => accepts x = false) before /\
       accepts entry = true /\ p = os_path_join dir entry) ->
  (forall entries,
     pick dir entries = None -> Forall (fun x => accepts x = false) entries) ->
  probe H dir pick otherwise = r ->
  (exists p, r = Ok (Some p) /\ picked_from H dir accepts p) \/
  (exists e, r = Raise e /\
             path_exists H dir = true /\ listdir H dir = Raise e) \/
  (nothing_in H dir accepts /\ r = otherwise).
Proof.
  intros Hsome Hnone. unfold probe, picked_from, nothing_in.
  destruct (path_exists H dir); [|intros <-; right; right; auto].
  destruct (listdir H dir) as [entries|e];
    [|intros <-; right; left; exists e; auto].
  destruct (pick dir entries) as [p|] eqn:Hp; intros <-.
  - left. exists p. split; [reflexivity|]. split; [reflexivity|].
    destruct (Hsome entries p Hp) as (before & entry & after & -> & Hb & He & ->).
    exists before, entry, after. auto.
  - right. right. split; [|reflexivity]. right. exists entries.
    split; [reflexivity | now apply Hnone].
Qed.

Lemma probe_gvfs (H : host) (dir : string)
    (otherwise r : result (option string)) :
  probe H dir first_mtp otherwise = r ->
  (exists p, r = Ok (Some p) /\ picked_from H dir is_mtp p) \/
  (exists e, r = Raise e /\
             path_exists H dir = true /\ listdir H dir = Raise e) \/
  (nothing_in H dir is_mtp /\ r = otherwise).
Proof.
  apply probe_cases.
  - intros entries p Hp. destruct (first_mtp_found dir entries p Hp)
      as (before & entry & after & ? & ? & ? & ?).
    exists before, entry, after. auto.
  - intros entries. apply first_mtp_none.
Qed.

Lemma probe_media (H : host) (dir : string)
    (otherwise r : result (option string)) :
  probe H dir (first_mount H) otherwise = r ->
  (exists p, r = Ok (Some p) /\ picked_from H dir (is_mount_in H dir) p) \/
  (exists e, r = Raise e /\
             path_exists H dir = true /\ listdir H dir = Raise e) \/
  (nothing_in H dir (is_mount_in H dir) /\ r = otherwise).
Proof.
  apply probe_cases.
  - intros entries p Hp. destruct (first_mount_found H dir entries p Hp)
      as (before & entry & after & ? & ? & Hm & ->).
    exists before, entry, after. auto.
  - intros entries. apply first_mount_none.
Qed.

Lemma first_mount_first (H : host) (dir : string) (before after : list string)
    (entry : string) :
  Forall (fun x => is_mount_in H dir x = false) before ->
  is_mount_in H dir entry = true ->
  first_mount H dir (before ++ entry :: after) = Some (os_path_join dir entry).
Proof.
  unfold is_mount_in. intros Hb He.
  induction Hb as [|x before Hx _ IH]; cbn [app first_mount].
  - now rewrite He.
  - now rewrite Hx.
Qed.

Lemma first_mtp_all_false (dir : string) (entries : list string) :
  Forall (fun x => is_mtp x = false) entries -> first_mtp dir entries = None.
Proof.
  unfold is_mtp. induction 1 as [|x entries Hx _ IH]; [reflexivity|].
  cbn [first_mtp]. now rewrite Hx.
Qed.

Lemma first_mount_all_false (H : host) (dir : string) (entries : list string) :
  Forall (fun x => is_mount_in H dir x = false) entries ->
  first_mount H dir entries = None.
Proof.
  unfold is_mount_in. induction 1 as [|x entries Hx _ IH]; [reflexivity|].
  cbn [first_mount]. now rewrite Hx.
Qed.

Lemma probe_picked (H : host) (dir : string)
    (pick : string -> list string -> option string)
    (accepts : string -> bool) (otherwise : result (option string))
    (p : string) :
  (forall before entry after,
     Forall (fun x => accepts x = false) before -> accepts entry = true ->
     pick dir (before ++ entry :: after)%list = Some (os_path_join dir entry)) ->
  picked_from H dir accepts p ->
  probe H dir pick otherwise = Ok (Some p).
Proof.
  intros Hpick [Hex (before & entry & after & Hls & Hb & He & ->)].
  unfold probe. now rewrite Hex, Hls, (Hpick before entry after Hb He).
Qed.

Lemma probe_nothing (H : host) (dir : string)
    (pick : string -> list string -> option string)
    (accepts : string -> bool) (otherwise : result (option string)) :
  (forall entries,
     Forall (fun x => accepts x = false) entries -> pick dir entries = None) ->
  nothing_in H dir accepts ->
  probe H dir pick otherwise = otherwise.
Proof.
  intros Hpick [Hex | (entries & Hls & Hall)]; unfold probe.
  - now rewrite Hex.
  - rewrite Hls, (Hpick entries Hall). now destruct (path_exists H dir).
Qed.

Section DetectionFacts.

Variable H : host.

Let gvfs := gvfs_path H.
Let legacy := legacy_gvfs H.
Let media := media_path H.

(** The three blocks, taken apart. *)
Lemma find_android_mount_point_cases (r : result (option string)) :
  find_android_mount_point H = r ->
  (exists p, r = Ok (Some p) /\
     (picked_from H gvfs is_mtp p \/
      nothing_in H gvfs is_mtp /\ picked_from H legacy is_mtp p \/
      nothing_in H gvfs is_mtp /\ nothing_in H legacy is_mtp /\
      picked_from H media (is_mount_in H media) p)) \/
  (exists e, r = Raise e /\
     (path_exists H gvfs = true /\ listdir H gvfs = Raise e \/
      nothing_in H gvfs is_mtp /\
      path_exists H legacy = true /\ listdir H legacy = Raise e \/
      nothing_in H gvfs is_mtp /\ nothing_in H legacy is_mtp /\
      path_exists H media = true /\ listdir H media = Raise e)) \/
  (r = Ok None /\
   nothing_in H gvfs is_mtp /\ nothing_in H legacy is_mtp /\
   nothing_in H media (is_mount_in H media)).
Proof.
  unfold find_android_mount_point. fold gvfs legacy media. intros Hr.
  apply probe_gvfs in Hr
    as [(p & -> & Hp) | [(e & -> & He) | [Hn1 Hr]]].
  { left. exists p. auto. }
  { right. left. exists e. auto. }
  symmetry in Hr. apply probe_gvfs in Hr
    as [(p & -> & Hp) | [(e & -> & He) | [Hn2 Hr]]].
  { left. exists p. auto. }
  { right. left. exists e. auto. }
  symmetry in Hr. apply probe_media in Hr
    as [(p & -> & Hp) | [(e & -> & He) | [Hn3 ->]]].
  { left. exists p. auto 6. }
  { right. left. exists e. auto 6. }
  right. right. auto.
Qed.

Lemma find_android_mount_point_gvfs (p : string) :
  picked_from H gvfs is_mtp p ->
  find_android_mount_point H = Ok (Some p).
Proof.
  intros Hp. unfold find_android_mount_point.
  apply (probe_picked H _ _ is_mtp); [|exact Hp].
  intros. now apply first_mtp_first.
Qed.

Lemma find_android_mount_point_past_gvfs :
  nothing_in H gvfs is_mtp ->
  find_android_mount_point H =
  probe H legacy first_mtp (probe H media (first_mount H) (Ok None)).
Proof.
  intros Hn. unfold find_android_mount_point.
  apply (probe_nothing H _ _ is_mtp); [|exact Hn].
  intros. now apply first_mtp_all_false.
Qed.

Lemma find_android_mount_point_past_legacy :
  nothing_in H gvfs is_mtp -> nothing_in H legacy is_mtp ->
  find_android_mount_point H = probe H media (first_mount H) (Ok None).
Proof.
  intros Hn1 Hn2. rewrite find_android_mount_point_past_gvfs by assumption.
  apply (probe_nothing H _ _ is_mtp); [|exact Hn2].
  intros. now apply first_mtp_all_false.
Qed.

End DetectionFacts.

(** X9. What [find_android_mount_point] returns is the first match of
    the first place that has one.  It returns a path exactly when that
    path is the directory joined with the first entry, in listing
    order, whose lowercased name contains [mtp], of
    [/run/user/<uid>/gvfs], or of [~/.gvfs] when the former does not
    exist or lists no such entry, or is the first entry that is a mount
    point of [/media/<USER>] when neither gvfs directory gives one.  A
    device under gvfs wins over anything in the later places, whatever
    they hold. *)
Theorem detection_returns_first_match (H : host) (p : string) :
  find_android_mount_point H = Ok (Some p) <->
  picked_from H (gvfs_path H) is_mtp p \/
  nothing_in H (gvfs_path H) is_mtp /\
  picked_from H (legacy_gvfs H) is_mtp p \/
  nothing_in H (gvfs_path H) is_mtp /\
  nothing_in H (legacy_gvfs H) is_mtp /\
  picked_from H (media_path H) (is_mount_in H (media_path H)) p.
Proof.
  split.
  - intros Hr. apply find_android_mount_point_cases in Hr
      as [(p' & Hp' & Hc) | [(e & He & _) | [Hn _]]]; try discriminate.
    now injection Hp' as <-.
  - intros [Hp | [[Hn1 Hp] | (Hn1 & Hn2 & Hp)]].
    + now apply find_android_mount_point_gvfs.
    + rewrite find_android_mount_point_past_gvfs by assumption.
      apply (probe_picked H _ _ is_mtp); [|exact Hp].
      intros. now apply first_mtp_first.
    + rewrite find_android_mount_point_past_legacy by assumption.
      apply (probe_picked H _ _ (is_mount_in H (media_path H))); [|exact Hp].
      intros. now apply first_mount_first.
Qed.

(** X10. [find_android_mount_point] returns [None] exactly when each of
    the three directories is missing or lists no entry that matches:
    no name containing [mtp] in the two gvfs directories and no mount
    point in [/media/<USER>]. *)
Theorem detection_finds_nothing (H : host) :
  find_android_mount_point H = Ok None <->
  nothing_in H (gvfs_path H) is_mtp /\
  nothing_in H (legacy_gvfs H) is_mtp /\
  nothing_in H (media_path H) (is_mount_in H (media_path H)).
Proof.
  split.
  - intros Hr. apply find_android_mount_point_cases in Hr
      as [(p' & Hp' & _) | [(e & He & _) | [_ Hn]]]; try discriminate.
    exact Hn.
  - intros (Hn1 & Hn2 & Hn3).
    rewrite find_android_mount_point_past_legacy by assumption.
    apply (probe_nothing H _ _ (is_mount_in H (media_path H))); [|exact Hn3].
    intros. now apply first_mount_all_false.
Qed.

Lemma probe_raises (H : host) (dir : string)
    (pick : string -> list string -> option string)
    (otherwise : result (option string)) (e : exn) :
  path_exists H dir = true -> listdir H dir = Raise e ->
  probe H dir pick otherwise = Raise e.
Proof. intros Hex Hls. unfold probe. now rewrite Hex, Hls. Qed.

(** X11. An error of a listing is not handled.
    [find_android_mount_point] raises exactly when a directory it lists
    cannot be listed, and it raises that error: the gvfs directory when
    it exists; the legacy directory when it exists and the gvfs
    directory gave no match; the media directory when it exists and
    neither gvfs directory gave a match.  So a gvfs directory that
    exists and cannot be listed ends the detection, even when a device
    is mounted in one of the later places. *)
Theorem detection_raises (H : host) (e : exn) :
  find_android_mount_point H = Raise e <->
  path_exists H (gvfs_path H) = true /\ listdir H (gvfs_path H) = Raise e \/
  nothing_in H (gvfs_path H) is_mtp /\
  path_exists H (legacy_gvfs H) = true /\
  listdir H (legacy_gvfs H) = Raise e \/
  nothing_in H (gvfs_path H) is_mtp /\
  nothing_in H (legacy_gvfs H) is_mtp /\
  path_exists H (media_path H) = true /\
  listdir H (media_path H) = Raise e.
Proof.
  split.
  - intros Hr. apply find_android_mount_point_cases in Hr
      as [(p' & Hp' & _) | [(e' & He & Hc) | [Hn _]]]; try discriminate.
    now injection He as <-.
  - intros [[Hex Hls] | [(Hn1 & Hex & Hls) | (Hn1 & Hn2 & Hex & Hls)]].
    + now apply probe_raises.
    + rewrite find_android_mount_point_past_gvfs by assumption.
      now apply probe_raises.
    + rewrite find_android_mount_point_past_legacy by assumption.
      now apply probe_raises.
Qed.

(* ------------------------------------------------------------------ *)
(** ** Which names are taken for a device *)

Lemma prefix_inv (n h : string) :
  prefix n h = true -> exists b, h = (n ++ b)%string.
Proof.
  revert h. induction n as [|c n IH]; intros h Hp.
  - now exists h.
  - destruct h as [|d h]; [discriminate|]. cbn in Hp.
    destruct (ascii_dec c d) as [->|]; [|discriminate].
    destruct (IH h Hp) as [b ->]. now exists b.
Qed.

Lemma contains_iff (n h : string) :
  contains n h = true <-> exists a b, h = (a ++ n ++ b)%string.
Proof.
  split.
  - induction h as [|c h IH]; cbn [contains]; intros Hc;
      apply orb_true_iff in Hc as [Hc|Hc]; try discriminate.
    + destruct (prefix_inv _ _ Hc) as [b Hb]. now exists EmptyString, b.
    + destruct (prefix_inv _ _ Hc) as [b Hb]. now exists EmptyString, b.
    + destruct (IH Hc) as (a & b & ->). now exists (String c a), b.
  - intros (a & b & ->). induction a as [|c a IH].
    + cbn [append].
      assert (Hp : prefix n (n ++ b) = true) by apply prefix_refl_app.
      destruct (n ++ b)%string; cbn [contains]; now rewrite Hp.
    + cbn [append contains]. rewrite IH. apply orb_true_r.
Qed.

Lemma lower_app (a b : string) :
  lower (a ++ b) = (lower a ++ lower b)%string.
Proof. induction a as [|c a IH]; cbn; [reflexivity | now rewrite IH]. Qed.

Lemma lower_split (s u v : string) :
  lower s = (u ++ v)%string ->
  exists s1 s2, s = (s1 ++ s2)%string /\ lower s1 = u /\ lower s2 = v.
Proof.
  revert s. induction u as [|c u IH]; intros s Hs.
  - now exists EmptyString, s.
  - destruct s as [|d s]; [discriminate|]. cbn in Hs.
    injection Hs as Hd Hs. destruct (IH s Hs) as (s1 & s2 & -> & <- & <-).
    exists (String d s1), s2. cbn. now rewrite Hd.
Qed.

Lemma lower_ascii_letter (c l : ascii) :
  (97 <=? nat_of_ascii l)%nat && (nat_of_ascii l <=? 122)%nat = true ->
  lower_ascii c = l -> c = l \/ c = ascii_of_nat (nat_of_ascii l - 32).
Proof.
  intros Hl <-. revert Hl.
  destruct c as [[] [] [] [] [] [] [] []]; vm_compute; intros H;
    (discriminate H || (left; reflexivity) || (right; reflexivity)).
Qed.

(** The spellings of [mtp]. *)
Definition mtp_spellings : list string :=
  ["mtp"; "mtP"; "mTp"; "mTP"; "Mtp"; "MtP"; "MTp"; "MTP"].

Lemma lower_mtp (x : string) : lower x = "mtp" <-> In x mtp_spellings.
Proof.
  split.
  - intros Hx.
    destruct x as [|c1 [|c2 [|c3 [|c4 x]]]]; try discriminate.
    cbn in Hx. injection Hx as H1 H2 H3.
    apply (lower_ascii_letter _ "m") in H1; [|reflexivity].
    apply (lower_ascii_letter _ "t") in H2; [|reflexivity].
    apply (lower_ascii_letter _ "p") in H3; [|reflexivity].
    destruct H1 as [-> | ->], H2 as [-> | ->], H3 as [-> | ->];
      vm_compute; tauto.
  - intros Hin. repeat (destruct Hin as [<- | Hin]; [reflexivity|]).
    destruct Hin.
Qed.

(** X12. The test [if 'mtp' in entry.lower()] looks at nothing but the
    three letters: an entry is taken for a device exactly when its name
    contains [mtp] somewhere, in any mix of upper and lower case.  So
    [MTP:host=Pixel] is accepted, and so is any other name with these
    letters in it, like [smtp-share]. *)
Theorem mtp_name_matching (entry : string) :
  is_mtp entry = true <->
  exists a x b, entry = (a ++ x ++ b)%string /\ In x mtp_spellings.
Proof.
  unfold is_mtp. rewrite contains_iff. split.
  - intros (a' & b' & Hl).
    destruct (lower_split _ _ _ Hl) as (a & rest & -> & _ & Hrest).
    destruct (lower_split _ _ _ Hrest) as (x & b & -> & Hx & _).
    exists a, x, b. split; [reflexivity | now apply lower_mtp].
  - intros (a & x & b & -> & Hx). apply lower_mtp in Hx.
    exists (lower a), (lower b). now rewrite !lower_app, Hx.
Qed.

(** A desktop with a phone under gvfs and a USB stick under [/media]. *)
Definition desktop : host :=
  mk_host 1000 (Some "alice") (fun p => ("/home/alice" ++ substring 1 6 p)%string)
    (fun p => (p =? "/run/user/1000/gvfs") || (p =? "/media/alice"))
    (fun p =>
       if p =? "/run/user/1000/gvfs"
       then Ok ["afc:host=ipod"; "MTP:host=Pixel"; "mtp:host=Other"]
       else if p =? "/media/alice" then Ok ["stick"]
       else Raise (raise_os ENOENT (Some p)))
    (fun p => p =? "/media/alice/stick").

(** The same desktop with no phone plugged in: the stick is returned. *)
Definition desktop_without_phone : host :=
  mk_host 1000 (Some "alice") (fun p => ("/home/alice" ++ substring 1 6 p)%string)
    (fun p => (p =? "/run/user/1000/gvfs") || (p =? "/media/alice"))
    (fun p =>
       if p =? "/run/user/1000/gvfs" then Ok ["afc:host=ipod"]
       else if p =? "/media/alice" then Ok ["stick"]
       else Raise (raise_os ENOENT (Some p)))
    (fun p => p =? "/media/alice/stick").

Example detection_on_desktop :
  find_android_mount_point desktop =
    Ok (Some "/run/user/1000/gvfs/MTP:host=Pixel") /\
  find_android_mount_point desktop_without_phone =
    Ok (Some "/media/alice/stick").
Proof. split; reflexivity. Qed.

(* ------------------------------------------------------------------ *)
(** ** What an interrupted scan leaves behind *)

(** The same machine with nobody at the keyboard. *)
Definition calm (E : env) : env :=
  mk_env (e_fs E) None (e_create_error E) (e_mount_point E) (e_timestamp E)
         (e_abspath E) (e_uid E) (e_expanduser E) (e_stdout_error E)
         (e_codec_message E).

(** The report starts with [pre]. *)
Definition grows (pre : list row) (l : list row * nat * nat) : Prop :=
  exists more, fst (fst l) = (pre ++ more)%list.

(** [m] only adds rows to the report. *)
Definition appends {A} (m : M A) : Prop :=
  forall pre, sound (grows pre) m (fun _ => True).

(** The first run does what the second does, or is interrupted at a
    point up to which the second one wrote the same rows. *)
Definition cut_short {A} (m1 m2 : M A) : Prop :=
  forall s,
    m1 s = m2 s \/
    (fst (m1 s) = Raise KeyboardInterrupt /\
     exists more, report (snd (m2 s)) = (report (snd (m1 s)) ++ more)%list).

Lemma appends_silent {A} (m : M A) : silent m -> appends m.
Proof.
  intros Hs pre. apply sound_silent; [exact Hs | intros s a _; exact I].
Qed.

Lemma appends_bind {A B} (m : M A) (k : A -> M B) :
  appends m -> (forall a, appends (k a)) -> appends (bind m k).
Proof.
  intros Hm Hk pre. eapply sound_bind; [apply Hm | intros a _; apply Hk].
Qed.

Lemma appends_writerow (E : env) (r : row) : appends (writerow E r).
Proof.
  intros pre s [more Hrep]. split; [|trivial]. unfold writerow.
  destruct (row_encodable r); [|now exists more].
  exists (more ++ [r])%list. cbn [snd ledger fst report] in *.
  now rewrite Hrep, app_assoc.
Qed.

Lemma appends_incr_file_count : appends incr_file_count.
Proof. intros pre s HR. split; [exact HR | trivial]. Qed.

Lemma appends_incr_error_count : appends incr_error_count.
Proof. intros pre s HR. split; [exact HR | trivial]. Qed.

Lemma appends_report {A} (m : M A) (s : state) :
  appends m -> exists more, report (snd (m s)) = (report s ++ more)%list.
Proof.
  intros Hm. destruct (Hm (report s) s) as [Hg _]; [|exact Hg].
  exists []. cbn. now rewrite app_nil_r.
Qed.

Lemma appends_process_file (E : env) (verbose : bool) (root : string)
    (entry : string * file) :
  appends (process_file E verbose root entry).
Proof.
  intros pre. unfold process_file. apply sound_try.
  - apply appends_bind; [apply appends_silent, silent_step|]. intros size.
    apply appends_bind; [apply appends_silent, silent_calculate_md5_with|].
    intros md5_hash. destruct (truthy md5_hash).
    + apply appends_bind; [apply appends_incr_file_count|]. intros _.
      apply appends_bind; [|intros _; apply appends_writerow].
      destruct verbose; [|apply appends_silent, silent_ret].
      apply appends_silent, silent_bind; auto with silent.
    + apply appends_bind; [apply appends_incr_error_count|]. intros _.
      apply appends_writerow.
  - intros e. apply appends_bind; [apply appends_incr_error_count|]. intros _.
    apply appends_bind; [apply appends_silent, silent_print_err|]. intros _.
    apply appends_writerow.
Qed.

Lemma appends_for_each {A} (xs : list A) (body : A -> M unit) :
  (forall x, appends (body x)) -> appends (for_each xs body).
Proof. intros Hb pre. apply sound_for_each. intros x. apply Hb. Qed.

Lemma sound_os_walk (R : list row * nat * nat -> Prop) (E : env)
    (body : string -> list string -> list (string * file) -> M unit) :
  (forall root ds fs, sound R (body root ds fs) (fun _ => True)) ->
  forall n top, sound R (os_walk E body top n) (fun _ => True).
Proof.
  assert (Hstep : forall top,
             sound R (step E (Scandir top) (Ok tt)) (fun _ : unit => True)).
  { intros top. apply sound_silent; [apply silent_step | intros s a _; exact I]. }
  intros Hbody n.
  induction n as [f | listable entries IH] using node_induction; intros top.
  - apply Hstep.
  - destruct listable; [|apply Hstep].
    cbn [os_walk].
    eapply sound_bind; [apply Hstep|]. intros _ _.
    eapply sound_bind; [apply Hbody|]. intros _ _.
    induction IH as [|[name d] es Hd _ IHes].
    + apply sound_silent; [apply silent_ret | intros s a _; exact I].
    + destruct d as [f | l es'].
      * exact IHes.
      * eapply sound_bind; [apply Hd | intros _ _; exact IHes].
Qed.

Lemma appends_scan_loop (E : env) (root_path : string) (verbose : bool) :
  appends (scan_loop E root_path verbose).
Proof.
  intros pre. unfold scan_loop. destruct (e_fs E root_path) as [n|].
  - apply sound_os_walk. intros root ds fs.
    apply sound_for_each. intros x. apply appends_process_file.
  - apply appends_silent, silent_step.
Qed.

Section CutShort.

Context {A B : Type}.

Lemma cut_short_refl (m : M A) : cut_short m m.
Proof. intros s. now left. Qed.

Lemma cut_short_bind (m1 m2 : M A) (k1 k2 : A -> M B) :
  cut_short m1 m2 -> (forall a, cut_short (k1 a) (k2 a)) ->
  (forall a, appends (k2 a)) ->
  cut_short (bind m1 k1) (bind m2 k2).
Proof.
  intros Hm Hk Ha s. unfold bind. destruct (Hm s) as [Heq | [Hint [more Hrep]]].
  - rewrite Heq. destruct (m2 s) as [[a|e] s2]; [apply Hk | now left].
  - right. destruct (m1 s) as [[a|e] s1]; cbn [fst snd] in *; [discriminate|].
    injection Hint as ->. split; [reflexivity|].
    destruct (m2 s) as [[a|e2] s2]; cbn [snd] in *; [|now exists more].
    destruct (appends_report (k2 a) s2 (Ha a)) as [more' Hrep'].
    exists (more ++ more')%list. now rewrite Hrep', Hrep, app_assoc.
Qed.

Lemma cut_short_try (b1 b2 : M A) (classes : exn -> bool)
    (handler : exn -> M A) :
  classes KeyboardInterrupt = false ->
  cut_short b1 b2 -> (forall e, appends (handler e)) ->
  cut_short (try_except b1 classes handler) (try_except b2 classes handler).
Proof.
  intros Hc Hb Hh s. unfold try_except.
  destruct (Hb s) as [Heq | [Hint [more Hrep]]].
  - rewrite Heq. now left.
  - right. destruct (b1 s) as [[a|e] s1]; cbn [fst snd] in *; [discriminate|].
    injection Hint as ->. rewrite Hc. split; [reflexivity|]. cbn [snd].
    destruct (b2 s) as [[a|e2] s2]; cbn [snd] in *; [now exists more|].
    destruct (classes e2); [|now exists more].
    destruct (appends_report (handler e2) s2 (Hh e2)) as [more' Hrep'].
    exists (more ++ more')%list. now rewrite Hrep', Hrep, app_assoc.
Qed.

End CutShort.

Lemma cut_short_step (E : env) {A} (ev : event) (o : result A) :
  cut_short (step E ev o) (step (calm E) ev o).
Proof.
  intros s. unfold step. cbn [calm e_sigint].
  destruct (e_sigint E) as [k|]; [|now left].
  destruct (k =? List.length (calls s))%nat; [|now left].
  right. split; [reflexivity|]. exists []. cbn. now rewrite app_nil_r.
Qed.

Lemma cut_short_for_each {A} (xs : list A) (b1 b2 : A -> M unit) :
  (forall x, cut_short (b1 x) (b2 x)) -> (forall x, appends (b2 x)) ->
  cut_short (for_each xs b1) (for_each xs b2).
Proof.
  intros Hb Ha. induction xs as [|x xs IH]; cbn [for_each].
  - apply cut_short_refl.
  - apply cut_short_bind; [apply Hb | intros _; exact IH |].
    intros _. now apply appends_for_each.
Qed.

Lemma cut_short_read_chunks (E : env) (fuel n : nat) :
  forall hd acc,
    cut_short (read_chunks E fuel n hd acc) (read_chunks (calm E) fuel n hd acc).
Proof.
  induction fuel as [|fuel IH]; intros hd acc; cbn [read_chunks].
  - apply cut_short_refl.
  - apply cut_short_bind; [unfold read; apply cut_short_step | |].
    + intros [chunk hd']. cbn [fst snd].
      destruct chunk; [apply cut_short_refl | apply IH].
    + intros [chunk hd']. cbn [fst snd]. apply appends_silent.
      destruct chunk; [apply silent_ret | apply silent_read_chunks].
Qed.

Lemma cut_short_calculate_md5_with (E : env) (n : nat) (p : string)
    (f : file) :
  cut_short (calculate_md5_with E n p f) (calculate_md5_with (calm E) n p f).
Proof.
  unfold calculate_md5_with.
  apply cut_short_bind; [apply cut_short_step | |].
  - intros _. apply cut_short_try; [reflexivity | |].
    + apply cut_short_bind; [unfold open_rb; apply cut_short_step | |].
      * intros hd. apply cut_short_bind;
          [apply cut_short_read_chunks | intros m; apply cut_short_refl |].
        intros m. apply appends_silent, silent_ret.
      * intros hd. apply appends_silent, silent_bind;
          [apply silent_read_chunks | intros m; apply silent_ret].
    + intros e. apply appends_silent, silent_bind; auto with silent.
  - intros _. apply appends_silent, silent_try.
    + apply silent_bind; [unfold open_rb; auto with silent|]. intros hd.
      apply silent_bind; [apply silent_read_chunks|]. intros m.
      auto with silent.
    + intros e. apply silent_bind; auto with silent.
Qed.

Lemma appends_after_size (E : env) (verbose : bool) (file_path : string)
    (size : Z) (md5_hash : option string) :
  appends
    (if truthy md5_hash then
       incr_file_count ;;
       (if verbose then
          fc <- get_file_count ;;
          print_progress E ("[" ++ dec_nat fc ++ "] " ++ file_path)
        else ret tt) ;;
       writerow E [Str file_path;
                   Str (match md5_hash with Some d => d | None => "" end);
                   Int size; Str "Success"]
     else
       incr_error_count ;;
       writerow E [Str file_path; Str "N/A"; Int size;
                   Str "Error - Could not read file"]).
Proof.
  destruct (truthy md5_hash).
  - apply appends_bind; [apply appends_incr_file_count|]. intros _.
    apply appends_bind; [|intros _; apply appends_writerow].
    destruct verbose; [|apply appends_silent, silent_ret].
    apply appends_silent, silent_bind; auto with silent.
  - apply appends_bind; [apply appends_incr_error_count|]. intros _.
    apply appends_writerow.
Qed.

Lemma cut_short_process_file (E : env) (verbose : bool) (root : string)
    (entry : string * file) :
  cut_short (process_file E verbose root entry)
            (process_file (calm E) verbose root entry).
Proof.
  unfold process_file.
  change (fun e : exn =>
            incr_error_count ;;
            print_err ("Error processing " ++
                       os_path_join root (fst entry) ++ ": " ++ str_exn e) ;;
            writerow (calm E)
              [Str (os_path_join root (fst entry)); Str "N/A"; Str "N/A";
               Str ("Error - " ++ str_exn e)])
    with (fun e : exn =>
            incr_error_count ;;
            print_err ("Error processing " ++
                       os_path_join root (fst entry) ++ ": " ++ str_exn e) ;;
            writerow E
              [Str (os_path_join root (fst entry)); Str "N/A"; Str "N/A";
               Str ("Error - " ++ str_exn e)]).
  apply cut_short_try; [reflexivity | |].
  - apply cut_short_bind; [unfold getsize; apply cut_short_step | |].
    + intros size.
      apply cut_short_bind;
        [apply cut_short_calculate_md5_with
        | intros v s; left; reflexivity |].
      intros md5_hash. apply (appends_after_size (calm E)).
    + intros size.
      apply appends_bind; [apply appends_silent, silent_calculate_md5_with|].
      intros md5_hash. apply (appends_after_size (calm E)).
  - intros e. apply appends_bind; [apply appends_incr_error_count|]. intros _.
    apply appends_bind; [apply appends_silent, silent_print_err|]. intros _.
    apply appends_writerow.
Qed.

Lemma appends_os_walk (E : env)
    (body : string -> list string -> list (string * file) -> M unit) :
  (forall root ds fs, appends (body root ds fs)) ->
  forall n top, appends (os_walk E body top n).
Proof. intros Hb n top pre. apply sound_os_walk. intros. apply Hb. Qed.

Lemma appends_walk_subdirs (E : env)
    (body : string -> list string -> list (string * file) -> M unit)
    (top : string) (es : list (string * node)) :
  (forall root ds fs, appends (body root ds fs)) ->
  appends (walk_subdirs E body top es).
Proof.
  intros Hb. induction es as [|[name d] es IH].
  - apply appends_silent, silent_ret.
  - destruct d as [f | l es']; [exact IH|].
    change (walk_subdirs E body top ((name, Dir l es') :: es))
      with (os_walk E body (os_path_join top name) (Dir l es') ;;
            walk_subdirs E body top es).
    apply appends_bind; [now apply appends_os_walk | intros _; exact IH].
Qed.

Lemma cut_short_os_walk (E : env)
    (b1 b2 : string -> list string -> list (string * file) -> M unit) :
  (forall root ds fs, cut_short (b1 root ds fs) (b2 root ds fs)) ->
  (forall root ds fs, appends (b2 root ds fs)) ->
  forall n top, cut_short (os_walk E b1 top n) (os_walk (calm E) b2 top n).
Proof.
  intros Hb Ha n.
  induction n as [f | listable entries IH] using node_induction; intros top.
  - apply cut_short_step.
  - destruct listable; [|apply cut_short_step].
    change (os_walk E b1 top (Dir true entries))
      with (step E (Scandir top) (Ok tt) ;;
            b1 top (dirnames entries) (files entries) ;;
            walk_subdirs E b1 top entries).
    change (os_walk (calm E) b2 top (Dir true entries))
      with (step (calm E) (Scandir top) (Ok tt) ;;
            b2 top (dirnames entries) (files entries) ;;
            walk_subdirs (calm E) b2 top entries).
    apply cut_short_bind; [apply cut_short_step | |].
    2:{ intros _. apply appends_bind; [apply Ha|]. intros _.
        now apply appends_walk_subdirs. }
    intros _. apply cut_short_bind; [apply Hb | |].
    2:{ intros _. now apply appends_walk_subdirs. }
    intros _.
    induction IH as [|[name d] es Hd _ IHes].
    + apply cut_short_refl.
    + destruct d as [f | l es'].
      * exact IHes.
      * change (walk_subdirs E b1 top ((name, Dir l es') :: es))
          with (os_walk E b1 (os_path_join top name) (Dir l es') ;;
                walk_subdirs E b1 top es).
        change (walk_subdirs (calm E) b2 top ((name, Dir l es') :: es))
          with (os_walk (calm E) b2 (os_path_join top name) (Dir l es') ;;
                walk_subdirs (calm E) b2 top es).
        apply cut_short_bind; [apply Hd | intros _; exact IHes |].
        intros _. now apply appends_walk_subdirs.
Qed.

Lemma cut_short_scan_loop (E : env) (root_path : string) (verbose : bool) :
  cut_short (scan_loop E root_path verbose)
            (scan_loop (calm E) root_path verbose).
Proof.
  unfold scan_loop. cbn [calm e_fs].
  destruct (e_fs E root_path) as [n|]; [|apply cut_short_step].
  apply cut_short_os_walk.
  - intros root ds fs. apply cut_short_for_each.
    + intros x. apply cut_short_process_file.
    + intros x. apply appends_process_file.
  - intros root ds fs. apply appends_for_each. intros x.
    apply appends_process_file.
Qed.

(** What [scan_directory] does once the report is open. *)
Definition scan_body (E : env) (root_path output_csv : string)
    (verbose : bool) : M unit :=
  writerow E header ;;
  print ("Scanning: " ++ root_path) ;;
  print ("Output will be written to: " ++ output_csv) ;;
  print dashes ;;
  scan_loop E root_path verbose ;;
  print dashes ;;
  print "Scan complete!" ;;
  fc <- get_file_count ;;
  print ("Total files processed: " ++ dec_nat fc) ;;
  ec <- get_error_count ;;
  print ("Errors encountered: " ++ dec_nat ec) ;;
  print ("Results saved to: " ++ output_csv).

Lemma appends_summary (output_csv : string) :
  appends
    (print dashes ;;
     print "Scan complete!" ;;
     fc <- get_file_count ;;
     print ("Total files processed: " ++ dec_nat fc) ;;
     ec <- get_error_count ;;
     print ("Errors encountered: " ++ dec_nat ec) ;;
     print ("Results saved to: " ++ output_csv)).
Proof.
  apply appends_silent.
  repeat (apply silent_bind; [auto with silent | intros ?]).
  apply silent_print.
Qed.

Lemma cut_short_scan_body (E : env) (root_path output_csv : string)
    (verbose : bool) :
  cut_short (scan_body E root_path output_csv verbose)
            (scan_body (calm E) root_path output_csv verbose).
Proof.
  unfold scan_body.
  assert (Hrest : appends
            (scan_loop (calm E) root_path verbose ;;
             print dashes ;;
             print "Scan complete!" ;;
             fc <- get_file_count ;;
             print ("Total files processed: " ++ dec_nat fc) ;;
             ec <- get_error_count ;;
             print ("Errors encountered: " ++ dec_nat ec) ;;
             print ("Results saved to: " ++ output_csv))).
  { apply appends_bind; [apply appends_scan_loop|]. intros _.
    apply appends_summary. }
  apply cut_short_bind; [intros s; left; reflexivity | |].
  2:{ intros _. repeat (apply appends_bind;
                        [apply appends_silent, silent_print | intros _]).
      exact Hrest. }
  intros _. apply cut_short_bind; [apply cut_short_refl | |].
  2:{ intros _. repeat (apply appends_bind;
                        [apply appends_silent, silent_print | intros _]).
      exact Hrest. }
  intros _. apply cut_short_bind; [apply cut_short_refl | |].
  2:{ intros _. repeat (apply appends_bind;
                        [apply appends_silent, silent_print | intros _]).
      exact Hrest. }
  intros _. apply cut_short_bind; [apply cut_short_refl | |].
  2:{ intros _. exact Hrest. }
  intros _. apply cut_short_bind; [apply cut_short_scan_loop | |].
  2:{ intros _. apply appends_summary. }
  intros _. apply cut_short_refl.
Qed.

(** X13. What an interrupted scan wrote is the beginning of the full
    report.  Compare a scan with the same scan on the same machine with
    nobody at the keyboard: either the two end in the same state with
    the same outcome, or the first ends with [KeyboardInterrupt] and its
    report is the one it found (the interruption came before the report
    was opened) or is a prefix of the report of the second: the
    rows written before the interruption are those the whole scan
    writes first, in the same order. *)
Theorem interrupted_report_is_prefix (E : env) (root_path output_csv : string)
    (verbose : bool) (s : state) :
  let cut := scan_directory E root_path output_csv verbose s in
  let whole := scan_directory (calm E) root_path output_csv verbose s in
  cut = whole \/
  (fst cut = Raise KeyboardInterrupt /\
   (report (snd cut) = report s \/
    exists more, report (snd whole) = (report (snd cut) ++ more)%list)).
Proof.
  cbv zeta.
  change (scan_directory E root_path output_csv verbose)
    with (set_counts 0 0 ;; create_output E output_csv ;;
          scan_body E root_path output_csv verbose).
  change (scan_directory (calm E) root_path output_csv verbose)
    with (set_counts 0 0 ;; create_output (calm E) output_csv ;;
          scan_body (calm E) root_path output_csv verbose).
  rewrite !(bind_ok (set_counts 0 0) _ s _ tt eq_refl).
  set (s0 := mk_state _ _ _ _ 0 0).
  unfold create_output. cbn [calm e_create_error].
  set (o := match e_create_error E output_csv with
            | Some e => Raise (raise_os e (Some output_csv))
            | None => Ok tt
            end).
  pose proof (step_state E (Create output_csv) o s0) as Hst.
  destruct (cut_short_step E (Create output_csv) o s0)
    as [Heq | [Hint _]].
  - destruct (step (calm E) (Create output_csv) o s0) as [[[]|e] s1] eqn:Hc.
    + rewrite (bind_ok _ _ s0 (mk_state (calls s1) [] (stdout s1) (stderr s1)
                                 (file_count s1) (error_count s1)) tt)
        by (now rewrite (bind_ok _ _ _ _ _ Heq)).
      rewrite (bind_ok _ _ s0 (mk_state (calls s1) [] (stdout s1) (stderr s1)
                                 (file_count s1) (error_count s1)) tt)
        by (now rewrite (bind_ok _ _ _ _ _ Hc)).
      destruct (cut_short_scan_body E root_path output_csv verbose
                  (mk_state (calls s1) [] (stdout s1) (stderr s1)
                            (file_count s1) (error_count s1)))
        as [Heq' | [Hint [more Hrep]]].
      * left. exact Heq'.
      * right. split; [exact Hint|]. right. now exists more.
    + left.
      rewrite (bind_raise _ _ s0 s1 e)
        by (now rewrite (bind_raise _ _ _ _ _ Heq)).
      rewrite (bind_raise _ _ s0 s1 e)
        by (now rewrite (bind_raise _ _ _ _ _ Hc)).
      reflexivity.
  - right.
    destruct (step E (Create output_csv) o s0) as [[[]|e] s1] eqn:Hc;
      cbn [fst snd] in *; [discriminate|].
    rewrite (bind_raise _ _ s0 s1 e)
      by (now rewrite (bind_raise _ _ _ _ _ Hc)).
    cbn [fst snd]. split; [exact Hint|]. left. now subst s1.
Qed.

(* ------------------------------------------------------------------ *)
(** ** Rows that cannot be written and progress lines that fail *)

(** X14. With [-v], a progress line that the standard output refuses
    turns the row of a readable file into an error row after the file
    was counted as processed: when nobody interrupts, the error is of
    class [Exception] and its row can be written, the loop body
    returns, the row is [path, N/A, N/A, Error - reason], and both
    counters have stepped. *)
Theorem failed_progress_line (E : env) (root name : string) (f : file)
    (s : state) (e : exn) :
  let file_path := os_path_join root name in
  e_sigint E = None ->
  readable f = true ->
  e_stdout_error E (progress_line (S (file_count s)) file_path) = Some e ->
  is_Exception e = true ->
  row_encodable (size_error_row file_path e) = true ->
  exists s',
    process_file E true root (name, f) s = (Ok tt, s') /\
    report s' =
      (report s ++
       [[Str file_path; Str "N/A"; Str "N/A";
         Str ("Error - " ++ str_exn e)%string]])%list /\
    file_count s' = S (file_count s) /\
    error_count s' = S (error_count s).
Proof.
  intros file_path quiet Hr Hprint Hexn Hrow.
  destruct (readable_sized f Hr) as [Hsize Hhash].
  destruct (calculate_md5_with_hashable E quiet 8192 file_path f
              (log (Getsize file_path) s) chunk_size_positive Hhash)
    as [c Hc].
  fold (calculate_md5 E) in Hc.
  unfold process_file. cbn [fst snd]. fold file_path. unfold try_except.
  erewrite bind_ok by (rewrite getsize_quiet by exact quiet;
                       rewrite Hsize; reflexivity).
  rewrite (bind_ok _ _ _ _ _ Hc).
  unfold MD5.md5_hex. rewrite MD5Facts.hexdigest_truthy.
  rewrite (bind_ok incr_file_count _ _ _ tt eq_refl).
  rewrite (bind_raise (fc <- get_file_count ;; print_progress E _) _ _
             (mk_state c (report s) (stdout s) (stderr s)
                       (S (file_count s)) (error_count s)) e).
  2:{ rewrite (bind_ok get_file_count _ _ _ _ eq_refl).
      cbn [with_calls file_count log].
      change ("[" ++ dec_nat (S (file_count s)) ++ "] " ++ file_path)%string
        with (progress_line (S (file_count s)) file_path).
      unfold print_progress. now rewrite Hprint. }
  rewrite Hexn. rewrite handler_writes by exact Hrow.
  eexists. split; [reflexivity|]. repeat split.
Qed.

Lemma failed_progress_line_witness :
  exists s',
    process_file (ascii_terminal "/mnt" (one_file cafe_name "abc")) true
                 "/mnt" (cafe_name, plain "abc") initial_state = (Ok tt, s') /\
    report s' =
      [[Str (os_path_join "/mnt" cafe_name); Str "N/A"; Str "N/A";
        Str "Error - 'ascii' codec can't encode character '\xe9' in position 12: ordinal not in range(128)"]] /\
    file_count s' = 1%nat /\
    error_count s' = 1%nat.
Proof.
  apply (failed_progress_line (ascii_terminal "/mnt" (one_file cafe_name "abc"))
           "/mnt" cafe_name (plain "abc") initial_state
           (UnicodeEncodeError
              "'ascii' codec can't encode character '\xe9' in position 12: ordinal not in range(128)"));
    reflexivity.
Defined.






Section QuietPartial.

Variable E : env.
Hypothesis quiet : e_sigint E = None.

Variable verbose : bool.
Hypothesis accepted : stdout_accepts E verbose.




Let body : string -> list string -> list (string * file) -> M unit :=
  fun root _ fs => for_each fs (process_file E verbose root).


End QuietPartial.


